(** * Scalar quantizers of komm: [komm/_quantization.py]

    A shallow embedding of the two classes of the module, [ScalarQuantizer]
    and [UniformQuantizer], and the properties their specification states.

    Numbers.  The source computes on [numpy] arrays of [float], the
    binary64 numbers of IEEE 754.  The module is embedded twice.

    The module [B64] follows the source on binary64 floats, as the
    standard library specifies them ([SpecFloat]): every operation rounds
    to nearest, overflows to an infinity and knows the two zeros and nan,
    as the source does.  Its arrays have any shape.

    The definitions outside [B64] are the same code on exact numbers: a
    finite float is a rational of [Q], compared with [==] ([Qeq]), and
    nothing is rounded; an input is a scalar or a 1-d array.  The
    infinities and nan have no counterpart there: the one place where the
    constructors produce one from finite arguments is marked by the
    outcome [NonFinite].  The exact embedding carries the properties that
    rest on the order of the numbers and on the formulas of the source,
    and it is the reference that results on floats are compared with.

    Integers.  [num_levels] is an integer of [Z]; the properties on
    floats take one that fits the 64 bits of [np.arange].  Storage is
    unbounded. *)

From Stdlib Require Import String QArith Qround Qabs ZArith List Bool Lia Lqa.
From Stdlib Require Import Sorting.Sorted.
From Stdlib Require Import Floats.SpecFloat Qpower.
Import ListNotations.

Local Open Scope Q_scope.

(** ** Outcomes of a call *)

Inductive exn : Type :=
| ValueError (msg : string)
| ZeroDivisionError
| IndexError
| OverflowError
| AxisError.

(** [Return a]: the call returns [a].  [Raise e]: it raises [e].
    [NonFinite]: the call goes on in the source, with an array that holds
    an infinity or a nan (numpy divides by zero with a warning, not an
    exception); the exact embedding stops there. *)
Inductive outcome (A : Type) : Type :=
| Return (a : A)
| Raise (e : exn)
| NonFinite.

Arguments Return {A} a.
Arguments Raise {A} e.
Arguments NonFinite {A}.

Definition bind {A B : Type} (m : outcome A) (k : A -> outcome B) : outcome B :=
  match m with
  | Return a => k a
  | Raise e => Raise e
  | NonFinite => NonFinite
  end.

Notation "x <- m ;; k" := (bind m (fun x => k))
  (at level 61, m at next level, right associativity).

(** ** The numpy operations the module uses *)

(** A 0-d or 1-d array of floats. *)
Inductive ndarray : Type :=
| Scalar (x : Q)
| Array1 (xs : list Q).

(** The elements of an array in order ([np.ravel]). *)
Definition elements (a : ndarray) : list Q :=
  match a with
  | Scalar x => [x]
  | Array1 xs => xs
  end.

(** An elementwise operation keeps the shape. *)
Definition ndarray_map (f : Q -> Q) (a : ndarray) : ndarray :=
  match a with
  | Scalar x => Scalar (f x)
  | Array1 xs => Array1 (map f xs)
  end.

(** What a Python call can hand back in this module. *)
Inductive pyvalue : Type :=
| PyNone
| PyInt (n : Z)
| PyArray (a : ndarray).

(** [x > t] on floats. *)
Definition Qgt_bool (x t : Q) : bool := negb (Qle_bool x t).

(** [np.sort], as an insertion sort: only the sorted sequence matters. *)
Fixpoint insert_sorted (x : Q) (l : list Q) : list Q :=
  match l with
  | [] => [x]
  | y :: l' => if Qle_bool x y then x :: l else y :: insert_sorted x l'
  end.

Fixpoint np_sort (l : list Q) : list Q :=
  match l with
  | [] => []
  | x :: l' => insert_sorted x (np_sort l')
  end.

(** Of a run of equal neighbours only one is kept. *)
Fixpoint drop_repeats (l : list Q) : list Q :=
  match l with
  | [] => []
  | x :: l' =>
      match l' with
      | [] => [x]
      | y :: _ => if Qeq_bool x y then drop_repeats l' else x :: drop_repeats l'
      end
  end.

(** [np.unique]: the sorted distinct values. *)
Definition np_unique (l : list Q) : list Q := drop_repeats (np_sort l).

(** [np.array_equal]: same length and equal elements. *)
Fixpoint np_array_equal (a b : list Q) : bool :=
  match a, b with
  | [], [] => true
  | x :: a', y :: b' => Qeq_bool x y && np_array_equal a' b'
  | _, _ => false
  end.

(** [np.arange(start, stop)] on integers. *)
Definition np_arange (start stop : Z) : list Z :=
  map (fun i => (start + Z.of_nat i)%Z) (seq 0 (Z.to_nat (stop - start))).

(** [np.tile(input_signal, reps=(reps, 1)).transpose()]: one row per input
    element, holding that element [reps] times.  A scalar is one row. *)
Definition tile_transpose (input_signal : ndarray) (reps : nat) : list (list Q) :=
  map (fun x => repeat x reps) (elements input_signal).

(** [rows > thresholds], the thresholds broadcast along every row. *)
Fixpoint row_gt (row ts : list Q) : list bool :=
  match row, ts with
  | x :: row', t :: ts' => Qgt_bool x t :: row_gt row' ts'
  | _, _ => []
  end.

(** [np.sum(..., axis=1)] of a boolean matrix: the number of [True] per row. *)
Definition sum_axis1 (m : list (list bool)) : list nat :=
  map (fun row => length (filter (fun b => b) row)) m.

(** [levels[indices]]: an index out of range raises [IndexError]. (The
    indices are counts, so none is negative.) *)
Fixpoint take (levels : list Q) (indices : list nat) : outcome (list Q) :=
  match indices with
  | [] => Return []
  | i :: indices' =>
      match nth_error levels i with
      | None => Raise IndexError
      | Some v => vs <- take levels indices' ;; Return (v :: vs)
      end
  end.

(** [interleaved[0::2] = levels; interleaved[1::2] = thresholds], for
    [thresholds] one shorter than [levels] (the constructor has checked it
    before). *)
Fixpoint interleave (levels thresholds : list Q) : list Q :=
  match levels with
  | [] => []
  | v :: levels' =>
      match thresholds with
      | [] => [v]
      | t :: thresholds' => v :: t :: interleave levels' thresholds'
      end
  end.

(** ** class ScalarQuantizer *)

(** The conversions [np.array(..., dtype=np.float)] of the constructor are
    the identity on sequences of floats; [num_levels] is [levels.size]. *)

Module ScalarQuantizer.

Record t : Type := Build {
  _levels : list Q;
  _thresholds : list Q;
  _num_levels : Z
}.

Definition __init__ (levels thresholds : list Q) : outcome t :=
  let num_levels := Z.of_nat (length levels) in
  if negb (Z.of_nat (length thresholds) =? num_levels - 1)%Z then
    Raise (ValueError "The length of 'thresholds' must be 'num_levels - 1'")
  else
    let interleaved := interleave levels thresholds in
    if negb (np_array_equal (np_unique interleaved) interleaved) then
      Raise (ValueError "Invalid values for 'levels' and 'thresholds'")
    else
      Return (Build levels thresholds num_levels).

Definition __call__ (self : t) (input_signal : ndarray) : outcome ndarray :=
  let input_signal_tile :=
    tile_transpose input_signal (length (_thresholds self)) in
  let exceeded := map (fun row => row_gt row (_thresholds self)) input_signal_tile in
  output_signal <- take (_levels self) (sum_axis1 exceeded) ;;
  Return (Array1 output_signal).

(** The three read-only properties. *)
Definition levels (self : t) : list Q := _levels self.

Definition thresholds (self : t) : list Q := _thresholds self.

Definition num_levels (self : t) : Z := _num_levels self.

End ScalarQuantizer.

(** ** class UniformQuantizer(ScalarQuantizer) *)

(** [a / n] on a Python float and a Python int, as in
    [input_peak / num_levels] ([input_peak] is a Python number, as its
    default [1.0] is): dividing by zero raises [ZeroDivisionError]. *)
Definition py_div (a : Q) (n : Z) : outcome Q :=
  if (n =? 0)%Z then Raise ZeroDivisionError else Return (a / inject_Z n).

(** [array / n] on a numpy array: no exception; dividing an element by
    zero leaves an infinity or a nan in the result. *)
Definition np_div (a : list Q) (n : Z) : outcome (list Q) :=
  if (n =? 0)%Z then
    match a with
    | [] => Return []
    | _ :: _ => NonFinite
    end
  else Return (map (fun x => x / inject_Z n) a).

(** [input_peak * np.arange(start, stop)]. *)
Definition scale_arange (input_peak : Q) (start stop : Z) : list Q :=
  map (fun k => input_peak * inject_Z k) (np_arange start stop).

(** The object of the subclass: the fields of [ScalarQuantizer], set by
    [super().__init__], and its own three. *)

Module UniformQuantizer.

Record t : Type := Build {
  base : ScalarQuantizer.t;
  _quantization_step : Q;
  _input_peak : Q;
  _type : string
}.

(** The [if]/[elif] chain of the constructor: the step and the levels. *)
Definition derive (num_levels : Z) (input_peak : Q) (type_ : string)
  : outcome (Q * list Q) :=
  if (type_ =? "unsigned")%string then
    delta <- py_div input_peak num_levels ;;
    levels <- np_div (scale_arange input_peak 0 num_levels) num_levels ;;
    Return (delta, levels)
  else if (type_ =? "mid-riser")%string then
    delta <- py_div (2 * input_peak) num_levels ;;
    levels <- np_div (scale_arange input_peak ((- num_levels) / 2) (num_levels / 2))
                     (num_levels / 2) ;;
    Return (delta, levels)
  else if (type_ =? "mid-tread")%string then
    delta <- py_div (2 * input_peak) num_levels ;;
    levels <- np_div (scale_arange input_peak ((- num_levels) / 2) (num_levels / 2))
                     (num_levels / 2) ;;
    Return (delta, map (fun v => v + delta / 2) levels)
  else
    Raise (ValueError
      "Parameter 'type_' must be 'unsigned' or 'mid-riser' or 'mid-tread'").

Definition __init__ (num_levels : Z) (input_peak : Q) (type_ : string)
  : outcome t :=
  dl <- derive num_levels input_peak type_ ;;
  let delta := fst dl in
  let levels := snd dl in
  let thresholds := removelast (map (fun v => v + delta / 2) levels) in
  super <- ScalarQuantizer.__init__ levels thresholds ;;
  Return (Build super delta input_peak type_).

Definition _quantize_mid_riser (self : t) (input_signal : ndarray) : ndarray :=
  let delta := _quantization_step self in
  ndarray_map
    (fun x => delta * inject_Z (Qfloor (x / delta + (1#2)))) input_signal.

Definition _quantize_mid_tread (self : t) (input_signal : ndarray) : ndarray :=
  let delta := _quantization_step self in
  ndarray_map
    (fun x => delta * (inject_Z (Qfloor (x / delta)) + (1#2))) input_signal.

(** A Python function that falls off its end returns [None]. *)
Definition __call__ (self : t) (input_signal : ndarray) : pyvalue :=
  if (_type self =? "unsigned")%string then PyInt 0
  else if (_type self =? "mid-riser")%string then
    PyArray (_quantize_mid_riser self input_signal)
  else if (_type self =? "mid-tread")%string then
    PyArray (_quantize_mid_tread self input_signal)
  else PyNone.

(** The two read-only properties of the subclass. *)
Definition quantization_step (self : t) : Q := _quantization_step self.

Definition input_peak (self : t) : Q := _input_peak self.

End UniformQuantizer.

(** The inherited method, [ScalarQuantizer.__call__(self, input_signal)] on
    a uniform quantizer: the threshold search over its own levels. *)
Definition generic_call (u : UniformQuantizer.t) (input_signal : ndarray)
  : outcome ndarray :=
  ScalarQuantizer.__call__ (UniformQuantizer.base u) input_signal.

(** * The module on binary64 floats *)

(** The same two classes, on the numbers and arrays the source computes
    with.  The outcome [NonFinite] does not occur here: an infinity or a
    nan is a float like any other. *)

Module B64.

(** ** Floats *)

(** A [float] of Python and a [np.float64] of numpy: an IEEE 754 binary64
    number, with its two zeros, two infinities and nan, as the standard
    library specifies it ([SpecFloat], precision 53, exponents below
    1024).  The operations round to nearest, ties to even. *)
Definition float : Type := spec_float.

Definition prec : Z := 53.

Definition emax : Z := 1024.

Definition fadd : float -> float -> float := SFadd prec emax.

Definition fmul : float -> float -> float := SFmul prec emax.

Definition fdiv : float -> float -> float := SFdiv prec emax.

(** [x < y], [x == y] and [x > t]; each is [False] when an operand is nan. *)
Definition flt (x y : float) : bool := SFltb x y.

Definition feq (x y : float) : bool := SFeqb x y.

Definition fgt (x t : float) : bool := SFltb t x.

Definition is_nan (x : float) : bool :=
  match x with
  | S754_nan => true
  | _ => false
  end.

(** [m * 2**e], rounded; and the conversion of an integer. *)
Definition binary64 (m e : Z) : float := binary_normalize prec emax m e false.

Definition of_int (n : Z) : float := binary64 n 0.

(** The literals [0.5] and [2.0]. *)
Definition half : float := Eval vm_compute in binary64 1 (-1).

Definition two : float := Eval vm_compute in of_int 2.

(** A decimal literal [n/d], such as [0.65 = 65/100]: the float nearest
    to the quotient. *)
Definition decimal (n : Z) (d : positive) : float :=
  fdiv (of_int n) (of_int (Zpos d)).

(** [np.floor]: the largest integer not above [x]; zeros, infinities and
    nan are returned as they are.  A float with a fraction is below
    [2**53], so its floor is a float. *)
Definition np_floor (x : float) : float :=
  match x with
  | S754_finite s m e =>
      if (0 <=? e)%Z then x
      else
        let n := (Zpos m / 2 ^ (- e))%Z in
        let n' := if (n * 2 ^ (- e) =? Zpos m)%Z then n else (n + 1)%Z in
        binary_normalize prec emax (if s then (- n')%Z else n) 0 s
  | _ => x
  end.

(** ** Arrays *)

(** An array of any rank: its shape and its elements in row-major order.
    A scalar (a 0-d array) has the shape [()] and one element. *)
Record ndarray (A : Type) : Type := Build_ndarray {
  shape : list nat;
  data : list A
}.

Arguments Build_ndarray {A} shape data.
Arguments shape {A} n.
Arguments data {A} n.

Definition size (s : list nat) : nat := fold_right Nat.mul 1%nat s.

Definition well_formed {A : Type} (a : ndarray A) : Prop :=
  length (data a) = size (shape a).

Definition scalar {A : Type} (x : A) : ndarray A := Build_ndarray [] [x].

Definition array1d {A : Type} (xs : list A) : ndarray A :=
  Build_ndarray [length xs] xs.

(** An elementwise operation keeps the shape. *)
Definition ndarray_map {A B : Type} (f : A -> B) (a : ndarray A) : ndarray B :=
  Build_ndarray (shape a) (map f (data a)).

(** [d], cut into [n] pieces of [k] elements. *)
Fixpoint chunks {A : Type} (n k : nat) (d : list A) : list (list A) :=
  match n with
  | O => []
  | S n' => firstn k d :: chunks n' k (skipn k d)
  end.

(** [np.tile(a, reps=(reps, 1))].  An array of rank below two is first
    given leading axes of length one; then the axis before the last is
    repeated [reps] times. *)
Definition atleast_2d (s : list nat) : list nat :=
  match s with
  | [] => [1; 1]%nat
  | [n] => [1; n]%nat
  | _ => s
  end.

Fixpoint tile_shape (s : list nat) (reps : nat) : list nat :=
  match s with
  | [a; b] => [a * reps; b]%nat
  | n :: s' => n :: tile_shape s' reps
  | [] => []
  end.

Fixpoint tile_data {A : Type} (s : list nat) (reps : nat) (d : list A) : list A :=
  match s with
  | [_; _] => concat (repeat d reps)
  | n :: s' => concat (map (tile_data s' reps) (chunks n (size s') d))
  | [] => d
  end.

Definition np_tile {A : Type} (a : ndarray A) (reps : nat) : ndarray A :=
  let s := atleast_2d (shape a) in
  Build_ndarray (tile_shape s reps) (tile_data s reps (data a)).

(** [a.transpose()]: the axes in reverse order. *)
Fixpoint columns {A : Type} (k : nat) (rows : list (list A)) : list (list A) :=
  match k with
  | O => []
  | S k' => flat_map (firstn 1) rows :: columns k' (map (@tl A) rows)
  end.

Fixpoint transpose_data {A : Type} (s : list nat) (d : list A) : list A :=
  match s with
  | [] => d
  | n :: s' =>
      concat (columns (size s') (map (transpose_data s') (chunks n (size s') d)))
  end.

Definition np_transpose {A : Type} (a : ndarray A) : ndarray A :=
  Build_ndarray (rev (shape a)) (transpose_data (shape a) (data a)).

(** [a > thresholds] for a 1-d array [thresholds]: numpy broadcasts along
    the last axis of [a], which must have the length of [thresholds]
    unless one of the two lengths is one; otherwise it raises a
    [ValueError], whose message goes on with the two shapes. *)
Fixpoint map2 {A B C : Type} (f : A -> B -> C) (l : list A) (l' : list B) : list C :=
  match l, l' with
  | x :: l, y :: l' => f x y :: map2 f l l'
  | _, _ => []
  end.

Definition np_greater (a : ndarray float) (thresholds : list float)
  : outcome (ndarray bool) :=
  let t := length thresholds in
  let m := last (shape a) 1%nat in
  if (m =? t)%nat then
    Return (Build_ndarray (shape a)
      (concat (map (fun row => map2 fgt row thresholds)
                   (chunks (size (removelast (shape a))) t (data a)))))
  else if (t =? 1)%nat then
    Return (Build_ndarray (shape a)
      (flat_map (fun x => map (fgt x) thresholds) (data a)))
  else if (m =? 1)%nat then
    Return (Build_ndarray (removelast (shape a) ++ [t])
      (flat_map (fun x => map (fgt x) thresholds) (data a)))
  else Raise (ValueError "operands could not be broadcast together").

(** [np.sum(a, axis=1)] of a boolean array: the number of [True] along
    the second axis, which the result no longer has.  An array without a
    second axis raises [AxisError]. *)
Definition sum_rows (r : nat) (rows : list (list bool)) : list nat :=
  fold_right (fun row acc => map2 Nat.add (map Nat.b2n row) acc)
             (repeat 0%nat r) rows.

Definition np_sum_axis1 (a : ndarray bool) : outcome (ndarray nat) :=
  match shape a with
  | s0 :: s1 :: rest =>
      let r := size rest in
      Return (Build_ndarray (s0 :: rest)
        (concat (map (fun block => sum_rows r (chunks s1 r block))
                     (chunks s0 (s1 * r) (data a)))))
  | _ => Raise AxisError
  end.

(** [levels[indices]]: the shape of [indices]; an index out of range
    raises [IndexError]. *)
Fixpoint take {A : Type} (levels : list A) (indices : list nat) : outcome (list A) :=
  match indices with
  | [] => Return []
  | i :: indices' =>
      match nth_error levels i with
      | None => Raise IndexError
      | Some v => vs <- take levels indices' ;; Return (v :: vs)
      end
  end.

Definition np_take {A : Type} (levels : list A) (indices : ndarray nat)
  : outcome (ndarray A) :=
  vs <- take levels (data indices) ;; Return (Build_ndarray (shape indices) vs).

(** [np.sort]: increasing, the nans last. *)
Definition sorts_before (x y : float) : bool := is_nan y || SFleb x y.

Fixpoint insert_sorted (x : float) (l : list float) : list float :=
  match l with
  | [] => [x]
  | y :: l' => if sorts_before x y then x :: l else y :: insert_sorted x l'
  end.

Fixpoint np_sort (l : list float) : list float :=
  match l with
  | [] => []
  | x :: l' => insert_sorted x (np_sort l')
  end.

(** [np.unique]: of the sorted elements, those that differ from the one
    before ([aux[1:] != aux[:-1]]). *)
Fixpoint drop_repeats (prev : float) (l : list float) : list float :=
  match l with
  | [] => []
  | x :: l' => if feq x prev then drop_repeats x l' else x :: drop_repeats x l'
  end.

Definition np_unique (l : list float) : list float :=
  match np_sort l with
  | [] => []
  | x :: l' => x :: drop_repeats x l'
  end.

(** [np.array_equal]: the same length and [==] at every index. *)
Fixpoint np_array_equal (a b : list float) : bool :=
  match a, b with
  | [], [] => true
  | x :: a', y :: b' => feq x y && np_array_equal a' b'
  | _, _ => false
  end.

(** [interleaved[0::2] = levels; interleaved[1::2] = thresholds]. *)
Fixpoint interleave {A : Type} (levels thresholds : list A) : list A :=
  match levels with
  | [] => []
  | v :: levels' =>
      match thresholds with
      | [] => [v]
      | t :: thresholds' => v :: t :: interleave levels' thresholds'
      end
  end.

(** [np.arange(start, stop)] on integers. *)
Definition np_arange (start stop : Z) : list Z :=
  map (fun i => (start + Z.of_nat i)%Z) (seq 0 (Z.to_nat (stop - start))).

(** ** class ScalarQuantizer *)

Module ScalarQuantizer.

Record t : Type := Build {
  _levels : list float;
  _thresholds : list float;
  _num_levels : Z
}.

Definition __init__ (levels thresholds : list float) : outcome t :=
  let num_levels := Z.of_nat (length levels) in
  if negb (Z.of_nat (length thresholds) =? num_levels - 1)%Z then
    Raise (ValueError "The length of 'thresholds' must be 'num_levels - 1'")
  else
    let interleaved := interleave levels thresholds in
    if negb (np_array_equal (np_unique interleaved) interleaved) then
      Raise (ValueError "Invalid values for 'levels' and 'thresholds'")
    else
      Return (Build levels thresholds num_levels).

Definition __call__ (self : t) (input_signal : ndarray float)
  : outcome (ndarray float) :=
  let input_signal_tile :=
    np_transpose (np_tile input_signal (length (_thresholds self))) in
  exceeded <- np_greater input_signal_tile (_thresholds self) ;;
  counts <- np_sum_axis1 exceeded ;;
  np_take (_levels self) counts.

End ScalarQuantizer.

(** ** class UniformQuantizer(ScalarQuantizer) *)

(** [a / n] on a Python float and a Python int.  Dividing by zero raises
    [ZeroDivisionError]; otherwise the int is converted to a float first,
    which raises [OverflowError] when it rounds to [2**1024] or more,
    that is from [2**1024 - 2**970] on. *)
Definition py_div (a : float) (n : Z) : outcome float :=
  if (n =? 0)%Z then Raise ZeroDivisionError
  else if (2 ^ 1024 - 2 ^ 970 <=? Z.abs n)%Z then Raise OverflowError
  else Return (fdiv a (of_int n)).

(** [input_peak * np.arange(start, stop) / n] on a float, an array of
    integers and a Python int: numpy converts the integers, and divides
    by zero without an exception. *)
Definition scaled_arange (input_peak : float) (start stop n : Z) : list float :=
  map (fun k => fdiv (fmul input_peak (of_int k)) (of_int n))
      (np_arange start stop).

(** What a Python call can hand back in this module. *)
Inductive pyvalue : Type :=
| PyNone
| PyInt (n : Z)
| PyArray (a : ndarray float).

Module UniformQuantizer.

Record t : Type := Build {
  base : ScalarQuantizer.t;
  _quantization_step : float;
  _input_peak : float;
  _type : string
}.

(** The [if]/[elif] chain of the constructor: the step and the levels. *)
Definition derive (num_levels : Z) (input_peak : float) (type_ : string)
  : outcome (float * list float) :=
  if (type_ =? "unsigned")%string then
    delta <- py_div input_peak num_levels ;;
    Return (delta, scaled_arange input_peak 0 num_levels num_levels)
  else if (type_ =? "mid-riser")%string then
    delta <- py_div (fmul two input_peak) num_levels ;;
    Return (delta,
            scaled_arange input_peak ((- num_levels) / 2) (num_levels / 2)
                          (num_levels / 2))
  else if (type_ =? "mid-tread")%string then
    delta <- py_div (fmul two input_peak) num_levels ;;
    Return (delta,
            map (fun v => fadd v (fdiv delta two))
                (scaled_arange input_peak ((- num_levels) / 2) (num_levels / 2)
                               (num_levels / 2)))
  else
    Raise (ValueError
      "Parameter 'type_' must be 'unsigned' or 'mid-riser' or 'mid-tread'").

Definition __init__ (num_levels : Z) (input_peak : float) (type_ : string)
  : outcome t :=
  dl <- derive num_levels input_peak type_ ;;
  let delta := fst dl in
  let levels := snd dl in
  let thresholds := removelast (map (fun v => fadd v (fdiv delta two)) levels) in
  super <- ScalarQuantizer.__init__ levels thresholds ;;
  Return (Build super delta input_peak type_).

(** The arithmetic of numpy on arrays of floats and [np.floor] work
    element by element and raise nothing: dividing by zero gives an
    infinity or a nan (and a warning). *)
Definition _quantize_mid_riser (self : t) (input_signal : ndarray float)
  : ndarray float :=
  let delta := _quantization_step self in
  ndarray_map (fun x => fmul delta (np_floor (fadd (fdiv x delta) half)))
              input_signal.

Definition _quantize_mid_tread (self : t) (input_signal : ndarray float)
  : ndarray float :=
  let delta := _quantization_step self in
  ndarray_map (fun x => fmul delta (fadd (np_floor (fdiv x delta)) half))
              input_signal.

(** A Python function that falls off its end returns [None]. *)
Definition __call__ (self : t) (input_signal : ndarray float) : pyvalue :=
  if (_type self =? "unsigned")%string then PyInt 0
  else if (_type self =? "mid-riser")%string then
    PyArray (_quantize_mid_riser self input_signal)
  else if (_type self =? "mid-tread")%string then
    PyArray (_quantize_mid_tread self input_signal)
  else PyNone.

End UniformQuantizer.

(** The inherited method, [ScalarQuantizer.__call__(self, input_signal)] on
    a uniform quantizer. *)
Definition generic_call (u : UniformQuantizer.t) (input_signal : ndarray float)
  : outcome (ndarray float) :=
  ScalarQuantizer.__call__ (UniformQuantizer.base u) input_signal.

End B64.

(** * Vocabulary of the properties *)

(** The validity condition of the class docstring,
    [v_0 < t_1 < v_1 < ... < t_(L-1) < v_(L-1)], is that the interleaved
    sequence is strictly increasing. *)
Definition strictly_increasing (l : list Q) : Prop := StronglySorted Qlt l.

(** The number of thresholds an input strictly exceeds: what one row of
    [np.sum(input_signal_tile > thresholds, axis=1)] holds. *)
Definition count_exceeded (x : Q) (ts : list Q) : nat :=
  length (filter (fun b => b) (map (Qgt_bool x) ts)).

(** The level the search selects for one input element. *)
Definition level_of (q : ScalarQuantizer.t) (x : Q) : Q :=
  nth (count_exceeded x (ScalarQuantizer._thresholds q))
      (ScalarQuantizer._levels q) 0.

(** What the constructor of [ScalarQuantizer] accepts. *)
Definition valid (levels thresholds : list Q) : Prop :=
  Z.of_nat (length thresholds) = (Z.of_nat (length levels) - 1)%Z /\
  strictly_increasing (interleave levels thresholds).

(** A quantizer some call of the constructor returned. *)
Definition constructed (q : ScalarQuantizer.t) : Prop :=
  exists levels thresholds, ScalarQuantizer.__init__ levels thresholds = Return q.

(** The levels of the two signed modes before the shift of mid-tread:
    [input_peak * np.arange(-L//2, L//2) / (L // 2)]. *)
Definition signed_levels (num_levels : Z) (input_peak : Q) : list Q :=
  map (fun x => x / inject_Z (num_levels / 2))
      (scale_arange input_peak ((- num_levels) / 2) (num_levels / 2)).

(** The levels of the unsigned mode: [input_peak * np.arange(L) / L]. *)
Definition unsigned_levels (num_levels : Z) (input_peak : Q) : list Q :=
  map (fun x => x / inject_Z num_levels) (scale_arange input_peak 0 num_levels).

(** The thresholds the constructor derives from step and levels. *)
Definition derived_thresholds (delta : Q) (levels : list Q) : list Q :=
  removelast (map (fun v => v + delta / 2) levels).

(** The two closed forms, on one element. *)
Definition mid_riser_value (delta x : Q) : Q :=
  delta * inject_Z (Qfloor (x / delta + (1#2))).

Definition mid_tread_value (delta x : Q) : Q :=
  delta * (inject_Z (Qfloor (x / delta)) + (1#2)).

(** The index, counted from the middle, of the step an input falls on,
    for levels shifted by [c]: with [c = 0] the floor of the mid-riser
    formula, with [c = delta/2] that of the mid-tread formula. *)
Definition cell (delta c x : Q) : Z := Qfloor ((x - c) / delta + (1#2)).

(** The shift of the levels: [delta/2] in mid-tread mode, none otherwise. *)
Definition offset (type_ : string) (delta : Q) : Q :=
  if (type_ =? "mid-tread")%string then delta / 2 else 0.

(** The range on which the closed form stays on the stored levels. *)
Definition search_range (type_ : string) (input_peak delta x : Q) : Prop :=
  if (type_ =? "mid-riser")%string
  then - input_peak - delta / 2 <= x /\ x < input_peak - delta / 2
  else - input_peak <= x /\ x < input_peak.

(** The two modes with levels on either side of zero. *)
Definition signed_mode (type_ : string) : Prop :=
  type_ = "mid-riser"%string \/ type_ = "mid-tread"%string.

(** [u.levels] and [u.thresholds], the inherited properties. *)
Definition ulevels (u : UniformQuantizer.t) : list Q :=
  ScalarQuantizer._levels (UniformQuantizer.base u).

Definition uthresholds (u : UniformQuantizer.t) : list Q :=
  ScalarQuantizer._thresholds (UniformQuantizer.base u).

(** The quantizer of the docstring of [ScalarQuantizer.__init__]. *)
Definition docstring_quantizer : ScalarQuantizer.t :=
  ScalarQuantizer.Build [-1; 0; 1] [-(1#2); 8#10] 3.

(** The object of a call of the constructor that returns. *)
Definition built (o : outcome UniformQuantizer.t) : UniformQuantizer.t :=
  match o with
  | Return u => u
  | _ => UniformQuantizer.Build (ScalarQuantizer.Build [] [] 0) 0 0 ""
  end.

(** [UniformQuantizer(num_levels=4, input_peak=1.0, type_=...)], the three
    quantizers of the docstring of [UniformQuantizer.__init__]. *)
Definition unsigned4 : UniformQuantizer.t :=
  Eval vm_compute in built (UniformQuantizer.__init__ 4 1 "unsigned").

Definition mid_riser4 : UniformQuantizer.t :=
  Eval vm_compute in built (UniformQuantizer.__init__ 4 1 "mid-riser").

Definition mid_tread4 : UniformQuantizer.t :=
  Eval vm_compute in built (UniformQuantizer.__init__ 4 1 "mid-tread").

(** [UniformQuantizer(num_levels=8)]. *)
Definition mid_riser8 : UniformQuantizer.t :=
  Eval vm_compute in built (UniformQuantizer.__init__ 8 1 "mid-riser").

(** [UniformQuantizer(num_levels=3, input_peak=3.0)]: an odd number of
    levels. *)
Definition mid_riser3 : UniformQuantizer.t :=
  Eval vm_compute in built (UniformQuantizer.__init__ 3 3 "mid-riser").

Definition mid_tread3 : UniformQuantizer.t :=
  Eval vm_compute in built (UniformQuantizer.__init__ 3 3 "mid-tread").

(** The number a scalar result stands for. *)
Definition py_number (v : pyvalue) : option Q :=
  match v with
  | PyInt n => Some (inject_Z n)
  | PyArray (Scalar y) => Some y
  | _ => None
  end.

(** The three errors of the two constructors. *)
Definition length_error : exn :=
  ValueError "The length of 'thresholds' must be 'num_levels - 1'".

Definition values_error : exn :=
  ValueError "Invalid values for 'levels' and 'thresholds'".

Definition type_error : exn :=
  ValueError "Parameter 'type_' must be 'unsigned' or 'mid-riser' or 'mid-tread'".

(** [a.shape]: [()] for a scalar, [(n,)] for a 1-d array. *)
Definition shape (a : ndarray) : list nat :=
  match a with
  | Scalar _ => []
  | Array1 xs => [length xs]
  end.

(** [u.num_levels], inherited as well. *)
Definition unum_levels (u : UniformQuantizer.t) : Z :=
  ScalarQuantizer.num_levels (UniformQuantizer.base u).

(** The three modes of [UniformQuantizer]. *)
Definition recognised (type_ : string) : Prop :=
  type_ = "unsigned"%string \/ signed_mode type_.

(** The step and the levels the constructor of [UniformQuantizer] derives
    in each mode. *)
Definition uniform_step (type_ : string) (num_levels : Z) (input_peak : Q) : Q :=
  if (type_ =? "unsigned")%string then input_peak / inject_Z num_levels
  else 2 * input_peak / inject_Z num_levels.

Definition uniform_levels (type_ : string) (num_levels : Z) (input_peak : Q)
  : list Q :=
  if (type_ =? "unsigned")%string then unsigned_levels num_levels input_peak
  else if (type_ =? "mid-riser")%string then signed_levels num_levels input_peak
  else map (fun v => v + uniform_step type_ num_levels input_peak / 2)
           (signed_levels num_levels input_peak).

(** ** Vocabulary of the binary64 embedding *)

(** The place of a float in the order that [<] and [==] decide: the sign
    class first (infinities outermost, the two zeros together), then the
    exponent, then the mantissa.  Nan has no place. *)
Definition place (x : B64.float) : Z * Z * Z :=
  match x with
  | S754_zero _ => (0, 0, 0)%Z
  | S754_infinity s => (if s then (-2)%Z else 2%Z, 0%Z, 0%Z)
  | S754_nan => (0, 0, 0)%Z
  | S754_finite s m e =>
      if s then ((-1)%Z, (- e)%Z, Zneg m) else (1%Z, e, Zpos m)
  end.

Definition before (a b : Z * Z * Z) : Prop :=
  let '(a1, a2, a3) := a in
  let '(b1, b2, b3) := b in
  (a1 < b1 \/ (a1 = b1 /\ (a2 < b2 \/ (a2 = b2 /\ a3 < b3))))%Z.

(** [x < y] and [x == y] as propositions. *)
Definition Flt (x y : B64.float) : Prop := B64.flt x y = true.

Definition Feq (x y : B64.float) : Prop := B64.feq x y = true.

(** A float that is not nan. *)
Definition number (x : B64.float) : Prop := B64.is_nan x = false.

(** Strictly increasing sequences of floats; what the constructor of
    [ScalarQuantizer] accepts; the quantizers it returns. *)
Definition Fincreasing (l : list B64.float) : Prop := StronglySorted Flt l.

Definition Fvalid (levels thresholds : list B64.float) : Prop :=
  Z.of_nat (length thresholds) = (Z.of_nat (length levels) - 1)%Z /\
  Fincreasing (B64.interleave levels thresholds).

Definition Fconstructed (q : B64.ScalarQuantizer.t) : Prop :=
  exists levels thresholds,
    B64.ScalarQuantizer.__init__ levels thresholds = Return q.

(** The number of thresholds an input strictly exceeds, and the level the
    search selects for it. *)
Definition Fcount_exceeded (x : B64.float) (ts : list B64.float) : nat :=
  length (filter (fun b => b) (map (B64.fgt x) ts)).

Definition Flevel_of (q : B64.ScalarQuantizer.t) (x : B64.float) : B64.float :=
  nth (Fcount_exceeded x (B64.ScalarQuantizer._thresholds q))
      (B64.ScalarQuantizer._levels q) S754_nan.

(** The rank of an array. *)
Definition ndim {A : Type} (a : B64.ndarray A) : nat := length (B64.shape a).

(** The real number a finite float stands for, [(-1)^s * m * 2^e]. *)
Definition value (x : B64.float) : Q :=
  match x with
  | S754_finite s m e =>
      (if s then - inject_Z (Zpos m) else inject_Z (Zpos m)) * 2 ^ e
  | _ => 0
  end.

Definition finite (x : B64.float) : bool :=
  match x with
  | S754_zero _ | S754_finite _ _ _ => true
  | _ => false
  end.

(** [x] is a binary64 number, finite, and stands for [q]. *)
Definition represents (x : B64.float) (q : Q) : Prop :=
  valid_binary B64.prec B64.emax x = true /\ finite x = true /\ value x == q.

(** The value of a finite binary64 number in units of [2^-1074], the
    smallest positive one. *)
Definition scaled (x : B64.float) : Z :=
  match x with
  | S754_finite s m e =>
      ((if s then Zneg m else Zpos m) * 2 ^ (e + 1074))%Z
  | _ => 0%Z
  end.

(** A [num_levels] that fits the 64-bit integers of [np.arange]. *)
Definition int64 (n : Z) : Prop := (- 2 ^ 63 <= n < 2 ^ 63)%Z.

(** The two closed forms on one float, and the one of a mode. *)
Definition Fmid_riser_value (delta x : B64.float) : B64.float :=
  B64.fmul delta (B64.np_floor (B64.fadd (B64.fdiv x delta) B64.half)).

Definition Fmid_tread_value (delta x : B64.float) : B64.float :=
  B64.fmul delta (B64.fadd (B64.np_floor (B64.fdiv x delta)) B64.half).

Definition Fclosed_form (type_ : string) (delta x : B64.float) : B64.float :=
  if (type_ =? "mid-riser")%string then Fmid_riser_value delta x
  else Fmid_tread_value delta x.

(** The closed form of a mode on real numbers. *)
Definition closed_form (type_ : string) (delta x : Q) : Q :=
  if (type_ =? "mid-riser")%string then mid_riser_value delta x
  else mid_tread_value delta x.

(** The closed form is exact at [x]: the float it returns stands for the
    real number that the formula gives on the real numbers that [delta]
    and [x] stand for. *)
Definition exact_at (type_ : string) (delta x : B64.float) : Prop :=
  represents delta (value delta) /\ represents x (value x) /\
  represents (Fclosed_form type_ delta x)
             (closed_form type_ (value delta) (value x)).

(** [u.levels], [u.thresholds] and [u.quantization_step] of a binary64
    quantizer. *)
Definition Fulevels (u : B64.UniformQuantizer.t) : list B64.float :=
  B64.ScalarQuantizer._levels (B64.UniformQuantizer.base u).

Definition Futhresholds (u : B64.UniformQuantizer.t) : list B64.float :=
  B64.ScalarQuantizer._thresholds (B64.UniformQuantizer.base u).

Definition Fstep (u : B64.UniformQuantizer.t) : B64.float :=
  B64.UniformQuantizer._quantization_step u.

(** The step, the levels and the thresholds of the binary64 quantizer [u]
    carry no rounding error: they stand for those of [u'], the quantizer
    of the same arguments in exact arithmetic. *)
Definition derived_exactly (u : B64.UniformQuantizer.t) (u' : UniformQuantizer.t)
  : Prop :=
  represents (Fstep u) (UniformQuantizer._quantization_step u') /\
  Forall2 represents (Fulevels u) (ulevels u') /\
  Forall2 represents (Futhresholds u) (uthresholds u').

(** The object of a call of the binary64 constructor that returns. *)
Definition Fbuilt (o : outcome B64.UniformQuantizer.t) : B64.UniformQuantizer.t :=
  match o with
  | Return u => u
  | _ => B64.UniformQuantizer.Build (B64.ScalarQuantizer.Build [] [] 0)
           S754_nan S754_nan ""
  end.

(** The literal [1.0], and the quantizers of the docstrings on floats. *)
Definition one : B64.float := Eval vm_compute in B64.of_int 1.

Definition Fdocstring_quantizer : B64.ScalarQuantizer.t :=
  Eval vm_compute in
    B64.ScalarQuantizer.Build
      [B64.of_int (-1); B64.of_int 0; B64.of_int 1]
      [B64.decimal (-5) 10; B64.decimal 8 10] 3.

Definition Funsigned4 : B64.UniformQuantizer.t :=
  Eval vm_compute in Fbuilt (B64.UniformQuantizer.__init__ 4 one "unsigned").

Definition Fmid_riser4 : B64.UniformQuantizer.t :=
  Eval vm_compute in Fbuilt (B64.UniformQuantizer.__init__ 4 one "mid-riser").

Definition Fmid_tread4 : B64.UniformQuantizer.t :=
  Eval vm_compute in Fbuilt (B64.UniformQuantizer.__init__ 4 one "mid-tread").

(** [UniformQuantizer(num_levels=10)], whose step [0.2] is no binary
    fraction. *)
Definition Fmid_riser10 : B64.UniformQuantizer.t :=
  Eval vm_compute in Fbuilt (B64.UniformQuantizer.__init__ 10 one "mid-riser").

Definition Fmid_tread10 : B64.UniformQuantizer.t :=
  Eval vm_compute in Fbuilt (B64.UniformQuantizer.__init__ 10 one "mid-tread").

(** [UniformQuantizer(num_levels=3, input_peak=3.0)]. *)
Definition Fmid_riser3 : B64.UniformQuantizer.t :=
  Eval vm_compute in
    Fbuilt (B64.UniformQuantizer.__init__ 3 (B64.of_int 3) "mid-riser").

(** [x <= y] on floats. *)
Definition Fle (x y : B64.float) : Prop := Flt x y \/ Feq x y.

(** * Properties of the exact embedding *)

(** ** Sorting and [np.unique] *)

Lemma Qle_bool_false (x y : Q) : Qle_bool x y = false -> y < x.
Proof.
  intros H. apply Qnot_le_lt. intros Hle.
  apply Qle_bool_iff in Hle. congruence.
Qed.

Lemma Qgt_bool_iff (x t : Q) : Qgt_bool x t = true <-> t < x.
Proof.
  unfold Qgt_bool. rewrite negb_true_iff. split.
  - apply Qle_bool_false.
  - intros Hlt. destruct (Qle_bool x t) eqn:E; [|reflexivity].
    apply Qle_bool_iff in E. lra.
Qed.

Lemma Qgt_bool_false_iff (x t : Q) : Qgt_bool x t = false <-> x <= t.
Proof.
  unfold Qgt_bool. rewrite negb_false_iff. apply Qle_bool_iff.
Qed.

Lemma insert_sorted_In (x z : Q) (l : list Q) :
  In z (insert_sorted x l) -> z = x \/ In z l.
Proof.
  induction l as [|y l IH]; simpl.
  - intros [H|[]]; auto.
  - destruct (Qle_bool x y); simpl.
    + intros [H|H]; auto.
    + intros [H|H]; auto. destruct (IH H); auto.
Qed.

Lemma insert_sorted_sorted (x : Q) (l : list Q) :
  StronglySorted Qle l -> StronglySorted Qle (insert_sorted x l).
Proof.
  induction 1 as [|y l Hs IH Hall]; simpl.
  - repeat constructor.
  - destruct (Qle_bool x y) eqn:E.
    + apply Qle_bool_iff in E. constructor.
      * constructor; assumption.
      * constructor; [assumption|].
        rewrite Forall_forall in *. intros z Hz.
        apply Qle_trans with y; auto.
    + apply Qle_bool_false in E. constructor; [assumption|].
      rewrite Forall_forall in *. intros z Hz.
      destruct (insert_sorted_In _ _ _ Hz) as [->|Hin]; [lra|auto].
Qed.

Lemma np_sort_sorted (l : list Q) : StronglySorted Qle (np_sort l).
Proof.
  induction l; simpl; [constructor|]. now apply insert_sorted_sorted.
Qed.

Lemma drop_repeats_In (z : Q) (l : list Q) :
  In z (drop_repeats l) -> In z l.
Proof.
  induction l as [|x l IH]; [auto|].
  destruct l as [|y l]; [auto|].
  change (drop_repeats (x :: y :: l))
    with (if Qeq_bool x y then drop_repeats (y :: l)
          else x :: drop_repeats (y :: l)).
  destruct (Qeq_bool x y).
  - intros H. right. now apply IH.
  - intros [H|H]; [now left|right; now apply IH].
Qed.

Lemma drop_repeats_sorted (l : list Q) :
  StronglySorted Qle l -> StronglySorted Qlt (drop_repeats l).
Proof.
  induction l as [|x l IH]; intros Hs; [constructor|].
  destruct l as [|y l].
  - repeat constructor.
  - change (drop_repeats (x :: y :: l))
      with (if Qeq_bool x y then drop_repeats (y :: l)
            else x :: drop_repeats (y :: l)).
    inversion Hs as [|? ? Hs' Hall]; subst.
    destruct (Qeq_bool x y) eqn:E; [now apply IH|].
    apply Qeq_bool_neq in E.
    constructor; [now apply IH|].
    rewrite Forall_forall in *. intros z Hz.
    apply drop_repeats_In in Hz.
    assert (Hxy : x <= y) by (apply Hall; now left).
    assert (Hyz : y <= z).
    { destruct Hz as [->|Hz]; [lra|].
      inversion Hs' as [|? ? _ Hall']; subst.
      rewrite Forall_forall in Hall'. now apply Hall'. }
    destruct (Qlt_le_dec x y) as [Hlt|Hge]; [lra|].
    exfalso. apply E. lra.
Qed.

(** [np.unique] always yields a strictly increasing sequence. *)
Lemma np_unique_increasing (l : list Q) : strictly_increasing (np_unique l).
Proof.
  apply drop_repeats_sorted, np_sort_sorted.
Qed.

Lemma np_array_equal_Forall2 (a b : list Q) :
  np_array_equal a b = true <-> Forall2 Qeq a b.
Proof.
  revert b. induction a as [|x a IH]; intros [|y b]; simpl.
  - split; [constructor|reflexivity].
  - split; [discriminate|inversion 1].
  - split; [discriminate|inversion 1].
  - rewrite andb_true_iff, Qeq_bool_iff, IH. split.
    + intros [? ?]; now constructor.
    + inversion 1; subst; auto.
Qed.

Lemma Forall2_Qeq_increasing (a b : list Q) :
  Forall2 Qeq a b -> strictly_increasing a -> strictly_increasing b.
Proof.
  unfold strictly_increasing.
  induction 1 as [|x y a b Hxy Hab IH]; intros Hs; [constructor|].
  inversion Hs as [|? ? Hs' Hall]; subst.
  constructor; [now apply IH|].
  clear IH Hs Hs'. induction Hab as [|x' y' a b Hxy' Hab IH'].
  - constructor.
  - inversion Hall; subst. constructor; [lra|now apply IH'].
Qed.

Lemma np_sort_increasing_id (l : list Q) :
  strictly_increasing l -> np_sort l = l.
Proof.
  induction 1 as [|x l Hs IH Hall]; simpl; [reflexivity|].
  rewrite IH. destruct l as [|y l]; [reflexivity|]. simpl.
  inversion Hall; subst.
  destruct (Qle_bool x y) eqn:E; [reflexivity|].
  apply Qle_bool_false in E. lra.
Qed.

Lemma drop_repeats_increasing_id (l : list Q) :
  strictly_increasing l -> drop_repeats l = l.
Proof.
  induction 1 as [|x l Hs IH Hall]; [reflexivity|].
  destruct l as [|y l]; [reflexivity|].
  change (drop_repeats (x :: y :: l))
    with (if Qeq_bool x y then drop_repeats (y :: l)
          else x :: drop_repeats (y :: l)).
  inversion Hall; subst.
  destruct (Qeq_bool x y) eqn:E.
  - apply Qeq_bool_iff in E. lra.
  - now rewrite IH.
Qed.

Lemma np_array_equal_refl (l : list Q) : np_array_equal l l = true.
Proof.
  induction l; simpl; [reflexivity|]. now rewrite Qeq_bool_refl.
Qed.

(** The test of the constructor, [np.array_equal(np.unique(a), a)], holds
    exactly of the strictly increasing sequences. *)
Lemma unique_fixpoint (l : list Q) :
  np_array_equal (np_unique l) l = true <-> strictly_increasing l.
Proof.
  split.
  - intros H. apply np_array_equal_Forall2 in H.
    eapply Forall2_Qeq_increasing; [exact H|apply np_unique_increasing].
  - intros H. unfold np_unique.
    rewrite (np_sort_increasing_id _ H), (drop_repeats_increasing_id _ H).
    apply np_array_equal_refl.
Qed.

(** ** The threshold search of [ScalarQuantizer.__call__] *)

Lemma row_gt_repeat (x : Q) (ts : list Q) :
  row_gt (repeat x (length ts)) ts = map (Qgt_bool x) ts.
Proof.
  induction ts as [|t ts IH]; simpl; [reflexivity|]. now rewrite IH.
Qed.

Lemma count_exceeded_cons (x t : Q) (ts : list Q) :
  count_exceeded x (t :: ts) =
  if Qgt_bool x t then S (count_exceeded x ts) else count_exceeded x ts.
Proof.
  unfold count_exceeded. simpl. now destruct (Qgt_bool x t).
Qed.

Lemma count_exceeded_le_length (x : Q) (ts : list Q) :
  (count_exceeded x ts <= length ts)%nat.
Proof.
  induction ts as [|t ts IH]; [apply Nat.le_refl|].
  rewrite count_exceeded_cons. simpl. destruct (Qgt_bool x t); lia.
Qed.

Lemma count_exceeded_mono (x1 x2 : Q) (ts : list Q) :
  x1 <= x2 -> (count_exceeded x1 ts <= count_exceeded x2 ts)%nat.
Proof.
  intros Hle. induction ts as [|t ts IH]; [apply Nat.le_refl|].
  rewrite !count_exceeded_cons.
  destruct (Qgt_bool x1 t) eqn:E1; destruct (Qgt_bool x2 t) eqn:E2; try lia.
  apply Qgt_bool_iff in E1. apply Qgt_bool_false_iff in E2. lra.
Qed.

Lemma count_exceeded_none (x : Q) (ts : list Q) :
  Forall (fun t => x <= t) ts -> count_exceeded x ts = 0%nat.
Proof.
  induction 1 as [|t ts Ht Hall IH]; [reflexivity|].
  rewrite count_exceeded_cons.
  apply Qgt_bool_false_iff in Ht. now rewrite Ht.
Qed.

(** The count is the index [i] of the cell the input lies in: the first
    [i] thresholds are below the input and the others are not. *)
Lemma count_exceeded_unique (x : Q) (ts : list Q) (i : nat) :
  (i <= length ts)%nat ->
  (forall j, (j < i)%nat -> nth j ts 0 < x) ->
  (forall j, (i <= j < length ts)%nat -> x <= nth j ts 0) ->
  count_exceeded x ts = i.
Proof.
  revert i. induction ts as [|t ts IH]; intros i Hi Hlo Hhi.
  - simpl in Hi. inversion Hi. reflexivity.
  - rewrite count_exceeded_cons. destruct i as [|i].
    + assert (Ht : x <= t) by (apply (Hhi 0%nat); simpl; lia).
      apply Qgt_bool_false_iff in Ht. rewrite Ht.
      apply IH; [lia | intros j Hj; lia |].
      intros j Hj. apply (Hhi (S j)). simpl. lia.
    + assert (Ht : t < x) by (apply (Hlo 0%nat); lia).
      apply Qgt_bool_iff in Ht. rewrite Ht. f_equal.
      apply IH.
      * simpl in Hi. lia.
      * intros j Hj. apply (Hlo (S j)). lia.
      * intros j Hj. apply (Hhi (S j)). simpl. lia.
Qed.

Lemma Forall_nth_Q (P : Q -> Prop) (l : list Q) (j : nat) :
  Forall P l -> (j < length l)%nat -> P (nth j l 0).
Proof.
  intros Hall Hj. rewrite Forall_forall in Hall. apply Hall, nth_In, Hj.
Qed.

(** Over increasing thresholds the count cuts the list in two. *)
Lemma count_exceeded_spec (x : Q) (ts : list Q) :
  strictly_increasing ts ->
  (forall j, (j < count_exceeded x ts)%nat -> nth j ts 0 < x) /\
  (forall j, (count_exceeded x ts <= j < length ts)%nat -> x <= nth j ts 0).
Proof.
  induction 1 as [|t ts Hs IH Hall].
  - split; intros j Hj; unfold count_exceeded in Hj; simpl in Hj; lia.
  - rewrite count_exceeded_cons. destruct (Qgt_bool x t) eqn:E.
    + apply Qgt_bool_iff in E. destruct IH as [IHlo IHhi]. split.
      * intros [|j] Hj; simpl; [assumption|]. apply IHlo. lia.
      * intros [|j] Hj; simpl in *; [lia|]. apply IHhi. lia.
    + apply Qgt_bool_false_iff in E.
      assert (Hz : count_exceeded x ts = 0%nat).
      { apply count_exceeded_none. rewrite Forall_forall in *.
        intros z Hz. specialize (Hall z Hz). lra. }
      rewrite Hz. split; [intros j Hj; lia|].
      intros [|j] Hj; simpl in *; [assumption|].
      assert (t < nth j ts 0) by (apply Forall_nth_Q; [assumption|lia]).
      lra.
Qed.

(** ** Valid level and threshold sequences *)

(** Unfolding a valid pair from the left. *)
Lemma valid_nil (ts : list Q) : ~ valid [] ts.
Proof.
  intros [Hlen _]. cbn [length] in Hlen. lia.
Qed.

Lemma valid_single (v : Q) (ls : list Q) : valid (v :: ls) [] -> ls = [].
Proof.
  intros [Hlen _]. destruct ls; [reflexivity|]. cbn [length] in Hlen. lia.
Qed.

Lemma valid_cons (v t : Q) (ls ts : list Q) :
  valid (v :: ls) (t :: ts) ->
  v < t /\ Forall (Qlt t) (interleave ls ts) /\ valid ls ts.
Proof.
  unfold valid, strictly_increasing. intros [Hlen Hs].
  cbn [length] in Hlen. simpl in Hs.
  inversion Hs as [|? ? Hs1 Hall1]; subst.
  inversion Hs1 as [|? ? Hs2 Hall2]; subst.
  inversion Hall1; subst.
  split; [assumption|]. split; [assumption|].
  split; [lia|assumption].
Qed.

Lemma In_levels_interleave (ls ts : list Q) (z : Q) :
  Z.of_nat (length ts) = (Z.of_nat (length ls) - 1)%Z ->
  In z ls -> In z (interleave ls ts).
Proof.
  revert ts. induction ls as [|v ls IH]; intros ts Hlen Hin; [destruct Hin|].
  destruct ts as [|t ts]; cbn [length] in Hlen.
  - destruct ls; cbn [length] in Hlen; [exact Hin|lia].
  - simpl. destruct Hin as [->|Hin]; [now left|].
    right; right. apply IH; [lia|assumption].
Qed.

Lemma In_thresholds_interleave (ls ts : list Q) (z : Q) :
  Z.of_nat (length ts) = (Z.of_nat (length ls) - 1)%Z ->
  In z ts -> In z (interleave ls ts).
Proof.
  revert ts. induction ls as [|v ls IH]; intros ts Hlen Hin;
    cbn [length] in Hlen; [lia|].
  destruct ts as [|t ts]; [destruct Hin|]. cbn [length] in Hlen. simpl.
  destruct Hin as [->|Hin]; [right; now left|].
  right; right. apply IH; [lia|assumption].
Qed.

Lemma valid_levels_above (v t : Q) (ls ts : list Q) :
  valid (v :: ls) (t :: ts) -> Forall (Qlt t) ls /\ Forall (Qlt t) ts.
Proof.
  intros H. apply valid_cons in H. destruct H as (_ & Hall & Hlen & _).
  rewrite Forall_forall in Hall.
  split; apply Forall_forall; intros z Hz; apply Hall.
  - now apply In_levels_interleave.
  - now apply In_thresholds_interleave.
Qed.

Lemma valid_levels_increasing (ls ts : list Q) :
  valid ls ts -> strictly_increasing ls.
Proof.
  unfold strictly_increasing.
  revert ts. induction ls as [|v ls IH]; intros ts H; [constructor|].
  destruct ts as [|t ts].
  - apply valid_single in H. subst. repeat constructor.
  - destruct (valid_levels_above _ _ _ _ H) as [Hl _].
    apply valid_cons in H. destruct H as (Hvt & _ & Hv).
    constructor; [now apply (IH ts)|].
    eapply Forall_impl; [|exact Hl]. intros z Hz. simpl in Hz. lra.
Qed.

Lemma valid_thresholds_increasing (ls ts : list Q) :
  valid ls ts -> strictly_increasing ts.
Proof.
  unfold strictly_increasing.
  revert ts. induction ls as [|v ls IH]; intros ts H.
  - now apply valid_nil in H.
  - destruct ts as [|t ts]; [constructor|].
    destruct (valid_levels_above _ _ _ _ H) as [_ Ht].
    apply valid_cons in H. destruct H as (_ & _ & Hv).
    constructor; [now apply IH|assumption].
Qed.

(** Every level lies between its two thresholds:
    [t_i < v_i < t_(i+1)], the stored thresholds being [t_1 ... t_(L-1)]. *)
Lemma valid_level_between (ls ts : list Q) (i : nat) :
  valid ls ts -> (i < length ls)%nat ->
  (forall j, (j < i)%nat -> nth j ts 0 < nth i ls 0) /\
  (forall j, (i <= j < length ts)%nat -> nth i ls 0 < nth j ts 0).
Proof.
  revert ts i. induction ls as [|v ls IH]; intros ts i H Hi;
    [simpl in Hi; lia|].
  destruct ts as [|t ts].
  - split; intros j Hj; [|simpl in Hj; lia].
    apply valid_single in H. subst. simpl in Hi. lia.
  - destruct (valid_levels_above _ _ _ _ H) as [Hl Ht].
    apply valid_cons in H. destruct H as (Hvt & _ & Hv).
    destruct i as [|i].
    + split; [intros j Hj; lia|]. intros [|j] Hj; simpl; [assumption|].
      assert (t < nth j ts 0) by (apply Forall_nth_Q; simpl in Hj; [assumption|lia]).
      lra.
    + simpl in Hi. destruct (IH ts i Hv ltac:(lia)) as [IHlo IHhi].
      split.
      * intros [|j] Hj; simpl.
        -- apply (Forall_nth_Q (Qlt t)); [assumption|lia].
        -- apply IHlo. lia.
      * intros [|j] Hj; simpl in *; [lia|]. apply IHhi. lia.
Qed.

Lemma increasing_nth_lt (l : list Q) (i j : nat) :
  strictly_increasing l -> (i < j < length l)%nat -> nth i l 0 < nth j l 0.
Proof.
  unfold strictly_increasing. intros Hs. revert i j.
  induction Hs as [|x l Hs IH Hall]; intros i j Hij; [simpl in Hij; lia|].
  destruct j as [|j]; [lia|]. simpl in Hij. destruct i as [|i]; simpl.
  - apply Forall_nth_Q; [assumption|lia].
  - apply IH. lia.
Qed.

Lemma increasing_nth_le (l : list Q) (i j : nat) :
  strictly_increasing l -> (i <= j < length l)%nat -> nth i l 0 <= nth j l 0.
Proof.
  intros Hs Hij. destruct (Nat.eq_dec i j) as [->|Hne]; [apply Qle_refl|].
  apply Qlt_le_weak, increasing_nth_lt; [assumption|lia].
Qed.

(** ** The constructor of [ScalarQuantizer] *)

Lemma ScalarQuantizer_init_valid (levels thresholds : list Q) :
  valid levels thresholds ->
  ScalarQuantizer.__init__ levels thresholds =
  Return (ScalarQuantizer.Build levels thresholds (Z.of_nat (length levels))).
Proof.
  intros [Hlen Hs]. unfold ScalarQuantizer.__init__.
  apply Z.eqb_eq in Hlen. rewrite Hlen. simpl negb. cbv iota.
  apply unique_fixpoint in Hs. rewrite Hs. reflexivity.
Qed.

Lemma ScalarQuantizer_init_Return (levels thresholds : list Q)
      (q : ScalarQuantizer.t) :
  ScalarQuantizer.__init__ levels thresholds = Return q ->
  valid levels thresholds /\
  q = ScalarQuantizer.Build levels thresholds (Z.of_nat (length levels)).
Proof.
  unfold ScalarQuantizer.__init__, valid.
  destruct (Z.of_nat (length thresholds) =? Z.of_nat (length levels) - 1)%Z eqn:E;
    simpl; [|discriminate].
  destruct (np_array_equal _ _) eqn:U; simpl; [|discriminate].
  intros H. inversion H; subst. apply Z.eqb_eq in E.
  apply unique_fixpoint in U. auto.
Qed.

Lemma constructed_valid (q : ScalarQuantizer.t) :
  constructed q ->
  valid (ScalarQuantizer._levels q) (ScalarQuantizer._thresholds q).
Proof.
  intros (ls & ts & H). apply ScalarQuantizer_init_Return in H.
  destruct H as [Hv ->]. exact Hv.
Qed.

Lemma valid_lengths (ls ts : list Q) :
  valid ls ts -> length ls = S (length ts).
Proof.
  intros [Hlen _]. lia.
Qed.

(** ** [ScalarQuantizer.__call__] on a valid quantizer *)

Lemma take_counts (ls ts xs : list Q) :
  (length ts < length ls)%nat ->
  take ls (map (fun x => count_exceeded x ts) xs) =
  Return (map (fun x => nth (count_exceeded x ts) ls 0) xs).
Proof.
  intros Hlen. induction xs as [|x xs IH]; simpl; [reflexivity|].
  pose proof (count_exceeded_le_length x ts) as Hc.
  destruct (nth_error ls (count_exceeded x ts)) as [v|] eqn:E.
  - rewrite IH. simpl. f_equal. f_equal.
    symmetry. now apply nth_error_nth.
  - apply nth_error_None in E. lia.
Qed.

(** The call never fails and works element by element; its result is
    always a 1-d array, with one element per input element. *)
Lemma ScalarQuantizer_call_elementwise (q : ScalarQuantizer.t) (a : ndarray) :
  valid (ScalarQuantizer._levels q) (ScalarQuantizer._thresholds q) ->
  ScalarQuantizer.__call__ q a = Return (Array1 (map (level_of q) (elements a))).
Proof.
  intros Hv. unfold ScalarQuantizer.__call__, tile_transpose, sum_axis1.
  rewrite !map_map.
  rewrite (map_ext _ (fun x => count_exceeded x (ScalarQuantizer._thresholds q))).
  - rewrite take_counts; [reflexivity|].
    rewrite (valid_lengths _ _ Hv). lia.
  - intros x. rewrite row_gt_repeat. reflexivity.
Qed.

Lemma level_of_index (q : ScalarQuantizer.t) (x : Q) :
  valid (ScalarQuantizer._levels q) (ScalarQuantizer._thresholds q) ->
  (count_exceeded x (ScalarQuantizer._thresholds q)
   < length (ScalarQuantizer._levels q))%nat.
Proof.
  intros Hv. rewrite (valid_lengths _ _ Hv).
  pose proof (count_exceeded_le_length x (ScalarQuantizer._thresholds q)). lia.
Qed.

Lemma level_of_In (q : ScalarQuantizer.t) (x : Q) :
  valid (ScalarQuantizer._levels q) (ScalarQuantizer._thresholds q) ->
  In (level_of q x) (ScalarQuantizer._levels q).
Proof.
  intros Hv. apply nth_In, level_of_index, Hv.
Qed.

Lemma level_of_mono (q : ScalarQuantizer.t) (x1 x2 : Q) :
  valid (ScalarQuantizer._levels q) (ScalarQuantizer._thresholds q) ->
  x1 <= x2 -> level_of q x1 <= level_of q x2.
Proof.
  intros Hv Hle. unfold level_of. apply increasing_nth_le.
  - eapply valid_levels_increasing, Hv.
  - split; [now apply count_exceeded_mono|now apply level_of_index].
Qed.

(** ** The constructor of [UniformQuantizer] *)

Lemma bind_Return {A B : Type} (m : outcome A) (k : A -> outcome B) (b : B) :
  bind m k = Return b -> exists a, m = Return a /\ k a = Return b.
Proof.
  destruct m as [a| |]; simpl; try discriminate. intros H. now exists a.
Qed.

Lemma np_arange_length (a b : Z) : length (np_arange a b) = Z.to_nat (b - a).
Proof.
  unfold np_arange. now rewrite length_map, length_seq.
Qed.

Lemma np_arange_nth (a b : Z) (i : nat) :
  (i < Z.to_nat (b - a))%nat ->
  nth i (np_arange a b) 0%Z = (a + Z.of_nat i)%Z.
Proof.
  intros Hi. unfold np_arange.
  rewrite (nth_indep _ 0%Z ((fun i => (a + Z.of_nat i)%Z) 0%nat))
    by now rewrite length_map, length_seq.
  rewrite (map_nth (fun i => (a + Z.of_nat i)%Z)), seq_nth by assumption.
  reflexivity.
Qed.

Lemma nth_map_Q {A : Type} (f : A -> Q) (l : list A) (d : A) (i : nat) :
  (i < length l)%nat -> nth i (map f l) 0 = f (nth i l d).
Proof.
  intros Hi. rewrite (nth_indep _ 0 (f d)) by now rewrite length_map.
  apply map_nth.
Qed.

Lemma length_removelast_Q (l : list Q) :
  length (removelast l) = pred (length l).
Proof.
  rewrite removelast_firstn_len, length_firstn. lia.
Qed.

Lemma nth_removelast_Q (l : list Q) (i : nat) :
  (S i < length l)%nat -> nth i (removelast l) 0 = nth i l 0.
Proof.
  revert i. induction l as [|x l IH]; intros i Hi; [simpl in Hi; lia|].
  destruct l as [|y l]; [simpl in Hi; lia|].
  change (removelast (x :: y :: l)) with (x :: removelast (y :: l)).
  destruct i as [|i]; [reflexivity|].
  simpl nth. apply IH. simpl in *. lia.
Qed.

Lemma scale_arange_length (p : Q) (a b : Z) :
  length (scale_arange p a b) = Z.to_nat (b - a).
Proof.
  unfold scale_arange. now rewrite length_map, np_arange_length.
Qed.

Lemma signed_levels_length (L : Z) (p : Q) :
  (0 <= L)%Z -> length (signed_levels L p) = Z.to_nat L.
Proof.
  intros HL. unfold signed_levels.
  rewrite length_map, scale_arange_length. f_equal.
  Z.div_mod_to_equations. lia.
Qed.

Lemma unsigned_levels_length (L : Z) (p : Q) :
  length (unsigned_levels L p) = Z.to_nat L.
Proof.
  unfold unsigned_levels.
  rewrite length_map, scale_arange_length. f_equal. lia.
Qed.

Lemma signed_levels_nth (L : Z) (p : Q) (i : nat) :
  (0 <= L)%Z -> (i < Z.to_nat L)%nat ->
  nth i (signed_levels L p) 0 =
  p * inject_Z (- L / 2 + Z.of_nat i) / inject_Z (L / 2).
Proof.
  intros HL Hi. unfold signed_levels, scale_arange.
  assert (Hn : Z.to_nat (L / 2 - - L / 2) = Z.to_nat L)
    by (f_equal; Z.div_mod_to_equations; lia).
  rewrite (nth_map_Q _ _ 0) by (rewrite length_map, np_arange_length; lia).
  rewrite (nth_map_Q _ _ 0%Z) by (rewrite np_arange_length; lia).
  rewrite np_arange_nth by lia. reflexivity.
Qed.

Lemma unsigned_levels_nth (L : Z) (p : Q) (i : nat) :
  (i < Z.to_nat L)%nat ->
  nth i (unsigned_levels L p) 0 = p * inject_Z (Z.of_nat i) / inject_Z L.
Proof.
  intros Hi. unfold unsigned_levels, scale_arange.
  rewrite (nth_map_Q _ _ 0) by (rewrite length_map, np_arange_length; lia).
  rewrite (nth_map_Q _ _ 0%Z) by (rewrite np_arange_length; lia).
  rewrite np_arange_nth by lia. reflexivity.
Qed.

Lemma derived_thresholds_length (delta : Q) (levels : list Q) :
  length (derived_thresholds delta levels) = pred (length levels).
Proof.
  unfold derived_thresholds. now rewrite length_removelast_Q, length_map.
Qed.

Lemma derived_thresholds_nth (delta : Q) (levels : list Q) (i : nat) :
  (S i < length levels)%nat ->
  nth i (derived_thresholds delta levels) 0 = nth i levels 0 + delta / 2.
Proof.
  intros Hi. unfold derived_thresholds.
  rewrite nth_removelast_Q by now rewrite length_map.
  apply (nth_map_Q (fun v => v + delta / 2)). lia.
Qed.

(** What [derive] returns in each mode. *)
Lemma derive_unsigned (L : Z) (p delta : Q) (levels : list Q) :
  UniformQuantizer.derive L p "unsigned" = Return (delta, levels) ->
  L <> 0%Z /\ delta = p / inject_Z L /\ levels = unsigned_levels L p.
Proof.
  unfold UniformQuantizer.derive, py_div, np_div. simpl String.eqb. cbv iota.
  destruct (L =? 0)%Z eqn:E; simpl; [discriminate|].
  apply Z.eqb_neq in E. intros H. inversion H. auto.
Qed.

Lemma np_div_signed (L : Z) (p : Q) (levels : list Q) :
  L <> 0%Z ->
  np_div (scale_arange p (- L / 2) (L / 2)) (L / 2) = Return levels ->
  (L / 2 <> 0)%Z /\ levels = signed_levels L p.
Proof.
  intros HL. unfold np_div.
  destruct (L / 2 =? 0)%Z eqn:E.
  - apply Z.eqb_eq in E.
    assert (L = 1%Z) by (Z.div_mod_to_equations; lia). subst L.
    simpl. discriminate.
  - apply Z.eqb_neq in E. intros H. inversion H. auto.
Qed.

Lemma derive_mid_riser (L : Z) (p delta : Q) (levels : list Q) :
  UniformQuantizer.derive L p "mid-riser" = Return (delta, levels) ->
  L <> 0%Z /\ (L / 2 <> 0)%Z /\
  delta = 2 * p / inject_Z L /\ levels = signed_levels L p.
Proof.
  unfold UniformQuantizer.derive, py_div. simpl String.eqb. cbv iota.
  destruct (L =? 0)%Z eqn:E; simpl; [discriminate|].
  apply Z.eqb_neq in E. intros H.
  apply bind_Return in H. destruct H as (ls & Hls & H).
  apply np_div_signed in Hls; [|assumption]. destruct Hls as [Hm ->].
  inversion H. auto.
Qed.

Lemma derive_mid_tread (L : Z) (p delta : Q) (levels : list Q) :
  UniformQuantizer.derive L p "mid-tread" = Return (delta, levels) ->
  L <> 0%Z /\ (L / 2 <> 0)%Z /\
  delta = 2 * p / inject_Z L /\
  levels = map (fun v => v + delta / 2) (signed_levels L p).
Proof.
  unfold UniformQuantizer.derive, py_div. simpl String.eqb. cbv iota.
  destruct (L =? 0)%Z eqn:E; simpl; [discriminate|].
  apply Z.eqb_neq in E. intros H.
  apply bind_Return in H. destruct H as (ls & Hls & H).
  apply np_div_signed in Hls; [|assumption]. destruct Hls as [Hm ->].
  inversion H. auto.
Qed.

Lemma derive_mode (L : Z) (p : Q) (ty : string) (dl : Q * list Q) :
  UniformQuantizer.derive L p ty = Return dl ->
  ty = "unsigned"%string \/ ty = "mid-riser"%string \/ ty = "mid-tread"%string.
Proof.
  unfold UniformQuantizer.derive.
  destruct (String.eqb_spec ty "unsigned"); [auto|].
  destruct (String.eqb_spec ty "mid-riser"); [auto|].
  destruct (String.eqb_spec ty "mid-tread"); [auto|].
  discriminate.
Qed.

(** What the constructor returns: the derived step and levels, the derived
    thresholds, and the validation of [ScalarQuantizer] passed. *)
Lemma UniformQuantizer_init_Return (L : Z) (p : Q) (ty : string)
      (u : UniformQuantizer.t) :
  UniformQuantizer.__init__ L p ty = Return u ->
  exists delta levels,
    UniformQuantizer.derive L p ty = Return (delta, levels) /\
    valid levels (derived_thresholds delta levels) /\
    u = UniformQuantizer.Build
          (ScalarQuantizer.Build levels (derived_thresholds delta levels)
                                 (Z.of_nat (length levels)))
          delta p ty.
Proof.
  unfold UniformQuantizer.__init__. intros H.
  apply bind_Return in H. destruct H as ([delta levels] & Hd & H).
  apply bind_Return in H. destruct H as (super & Hs & H).
  simpl in Hs. apply ScalarQuantizer_init_Return in Hs.
  destruct Hs as [Hv ->]. inversion H; subst.
  exists delta, levels. auto.
Qed.

(** ** Floors *)

(** [lra] and [nra] do not divide: halves are rewritten to products. *)
Lemma Qhalf (d : Q) : d / 2 == d * (1#2).
Proof. field. Qed.

Ltac halves :=
  repeat match goal with
  | |- context [?d / 2] => rewrite (Qhalf d)
  | H : context [?d / 2] |- _ => rewrite (Qhalf d) in H
  end.

Lemma inject_Z_le (a b : Z) : (a <= b)%Z -> inject_Z a <= inject_Z b.
Proof. intros H. now rewrite <- Zle_Qle. Qed.

Lemma inject_Z_lt (a b : Z) : (a < b)%Z -> inject_Z a < inject_Z b.
Proof. intros H. now rewrite <- Zlt_Qlt. Qed.

Lemma inject_Z_succ (a : Z) : inject_Z (a + 1) = inject_Z a + 1.
Proof. now rewrite inject_Z_plus. Qed.

Lemma Qfloor_unique (y : Q) (k : Z) :
  inject_Z k <= y -> y < inject_Z (k + 1) -> Qfloor y = k.
Proof.
  intros Hlo Hhi.
  pose proof (Qfloor_le y) as H1. pose proof (Qlt_floor y) as H2.
  assert (H3 : inject_Z k < inject_Z (Qfloor y + 1)) by lra.
  assert (H4 : inject_Z (Qfloor y) < inject_Z (k + 1)) by lra.
  rewrite <- Zlt_Qlt in H3, H4. lia.
Qed.

(** ** The two closed forms, on one element *)

Lemma mid_riser_value_mono (delta x1 x2 : Q) :
  0 < delta -> x1 <= x2 ->
  mid_riser_value delta x1 <= mid_riser_value delta x2.
Proof.
  intros Hd Hle. unfold mid_riser_value.
  assert (Hq : x1 / delta + (1#2) <= x2 / delta + (1#2)).
  { assert (0 < / delta) by now apply Qinv_lt_0_compat.
    unfold Qdiv. nra. }
  apply Qfloor_resp_le, inject_Z_le in Hq. nra.
Qed.

Lemma mid_tread_value_mono (delta x1 x2 : Q) :
  0 < delta -> x1 <= x2 ->
  mid_tread_value delta x1 <= mid_tread_value delta x2.
Proof.
  intros Hd Hle. unfold mid_tread_value.
  assert (Hq : x1 / delta <= x2 / delta).
  { assert (0 < / delta) by now apply Qinv_lt_0_compat.
    unfold Qdiv. nra. }
  apply Qfloor_resp_le, inject_Z_le in Hq. nra.
Qed.

Lemma mid_riser_value_idempotent (delta x : Q) :
  ~ delta == 0 ->
  mid_riser_value delta (mid_riser_value delta x) == mid_riser_value delta x.
Proof.
  intros Hd. unfold mid_riser_value.
  set (k := Qfloor (x / delta + (1#2))).
  assert (Hk : Qfloor (delta * inject_Z k / delta + (1#2)) = k).
  { apply Qfloor_unique.
    - assert (E : delta * inject_Z k / delta == inject_Z k) by (field; assumption).
      rewrite E. lra.
    - assert (E : delta * inject_Z k / delta == inject_Z k) by (field; assumption).
      rewrite E, inject_Z_succ. lra. }
  rewrite Hk. reflexivity.
Qed.

Lemma mid_tread_value_idempotent (delta x : Q) :
  ~ delta == 0 ->
  mid_tread_value delta (mid_tread_value delta x) == mid_tread_value delta x.
Proof.
  intros Hd. unfold mid_tread_value.
  set (k := Qfloor (x / delta)).
  assert (E : delta * (inject_Z k + (1#2)) / delta == inject_Z k + (1#2))
    by (field; assumption).
  assert (Hk : Qfloor (delta * (inject_Z k + (1#2)) / delta) = k).
  { apply Qfloor_unique; rewrite E; [|rewrite inject_Z_succ]; lra. }
  rewrite Hk. reflexivity.
Qed.

(** ** A uniform grid of levels and thresholds

    Levels [(i - m) * delta + c] for [i = 0 .. 2m-1], thresholds half a
    step above each level but the last.  The two signed modes of
    [UniformQuantizer] with an even number of levels are of this shape,
    with [c = 0] (mid-riser) and [c = delta/2] (mid-tread). *)

Section Grid.

Variables (delta c : Q) (m : Z) (ls ts : list Q).
Hypothesis delta_pos : 0 < delta.
Hypothesis ls_length : length ls = Z.to_nat (2 * m).
Hypothesis ts_length : length ts = pred (length ls).
Hypothesis ls_nth : forall i, (i < length ls)%nat ->
  nth i ls 0 == inject_Z (Z.of_nat i - m) * delta + c.
Hypothesis ts_nth : forall j, (j < length ts)%nat ->
  nth j ts 0 == nth j ls 0 + delta / 2.

Lemma cell_bounds (x : Q) :
  inject_Z (cell delta c x) * delta + c - delta / 2 <= x /\
  x < inject_Z (cell delta c x) * delta + c + delta / 2.
Proof.
  unfold cell. set (r := (x - c) / delta).
  assert (Hx : x == r * delta + c) by (unfold r; field; lra).
  pose proof (Qfloor_le (r + (1#2))) as Hlo.
  pose proof (Qlt_floor (r + (1#2))) as Hhi.
  rewrite inject_Z_succ in Hhi.
  set (k := inject_Z (Qfloor (r + (1#2)))) in *.
  split; rewrite Hx at 1; halves; nra.
Qed.

Lemma ts_nth_grid (j : nat) :
  (j < length ts)%nat ->
  nth j ts 0 == inject_Z (Z.of_nat j - m) * delta + c + delta / 2.
Proof.
  intros Hj. rewrite ts_nth by assumption. rewrite ls_nth by lia.
  reflexivity.
Qed.

(** Inside the grid, and off the thresholds, the threshold search finds
    the cell of the closed form. *)
Lemma grid_count (x : Q) :
  (- m <= cell delta c x <= m - 1)%Z ->
  (forall j, (j < length ts)%nat -> ~ x == nth j ts 0) ->
  count_exceeded x ts = Z.to_nat (cell delta c x + m).
Proof.
  intros Hc Hoff. destruct (cell_bounds x) as [Hlo Hhi].
  apply count_exceeded_unique.
  - rewrite ts_length, ls_length. lia.
  - intros j Hj.
    assert (Hjt : (j < length ts)%nat) by (rewrite ts_length, ls_length; lia).
    assert (Hle : nth j ts 0 <= x).
    { rewrite (ts_nth_grid j Hjt).
      assert (Hz : inject_Z (Z.of_nat j - m) + 1 <= inject_Z (cell delta c x)).
      { rewrite <- inject_Z_succ. apply inject_Z_le. lia. }
      halves. nra. }
    specialize (Hoff j Hjt).
    destruct (Qlt_le_dec (nth j ts 0) x) as [Hlt|Hge]; [exact Hlt|].
    exfalso. apply Hoff. lra.
  - intros j Hj. rewrite (ts_nth_grid j) by lia.
    assert (Hz : inject_Z (cell delta c x) <= inject_Z (Z.of_nat j - m)).
    { apply inject_Z_le. lia. }
    halves. nra.
Qed.

Lemma grid_level (x : Q) :
  (- m <= cell delta c x <= m - 1)%Z ->
  (forall j, (j < length ts)%nat -> ~ x == nth j ts 0) ->
  nth (count_exceeded x ts) ls 0 == inject_Z (cell delta c x) * delta + c.
Proof.
  intros Hc Hoff. rewrite (grid_count x Hc Hoff).
  rewrite ls_nth by (rewrite ls_length; lia).
  rewrite Z2Nat.id by lia.
  replace (cell delta c x + m - m)%Z with (cell delta c x) by lia. reflexivity.
Qed.

End Grid.

Section GridCells.

Variables (delta c : Q) (m : Z).
Hypothesis delta_pos : 0 < delta.

Lemma cell_inside (x : Q) :
  inject_Z (- m) * delta + c - delta / 2 <= x ->
  x < inject_Z m * delta + c - delta / 2 ->
  (- m <= cell delta c x <= m - 1)%Z.
Proof.
  intros Hlo Hhi. destruct (cell_bounds delta c delta_pos x) as [Blo Bhi].
  split.
  - destruct (Z_lt_le_dec (cell delta c x) (- m)) as [Hlt|Hge]; [|lia].
    exfalso.
    assert (Hz : inject_Z (cell delta c x) + 1 <= inject_Z (- m)).
    { rewrite <- inject_Z_succ. apply inject_Z_le. lia. }
    halves. nra.
  - destruct (Z_lt_le_dec (cell delta c x) m) as [Hlt|Hge]; [lia|].
    exfalso. apply inject_Z_le in Hge. halves. nra.
Qed.

End GridCells.

Lemma mid_riser_value_cell (delta x : Q) :
  mid_riser_value delta x == inject_Z (cell delta 0 x) * delta + 0.
Proof.
  unfold mid_riser_value, cell.
  rewrite (Qfloor_comp ((x - 0) / delta + (1#2)) (x / delta + (1#2))).
  - ring.
  - unfold Qdiv, Qminus. ring.
Qed.

Lemma mid_tread_value_cell (delta x : Q) :
  ~ delta == 0 ->
  mid_tread_value delta x == inject_Z (cell delta (delta / 2) x) * delta + delta / 2.
Proof.
  intros Hd. unfold mid_tread_value, cell.
  rewrite (Qfloor_comp ((x - delta / 2) / delta + (1#2)) (x / delta)).
  - field.
  - field. assumption.
Qed.

(** ** What a constructed [UniformQuantizer] holds *)

Lemma unsigned_init (L : Z) (p : Q) (u : UniformQuantizer.t) :
  UniformQuantizer.__init__ L p "unsigned" = Return u ->
  (1 <= L)%Z /\
  UniformQuantizer._quantization_step u = p / inject_Z L /\
  UniformQuantizer._type u = "unsigned"%string /\
  valid (ulevels u) (uthresholds u) /\
  ulevels u = unsigned_levels L p /\
  uthresholds u = derived_thresholds (p / inject_Z L) (ulevels u).
Proof.
  intros H. apply UniformQuantizer_init_Return in H.
  destruct H as (delta & ls & Hd & Hv & ->).
  apply derive_unsigned in Hd. destruct Hd as (HL & -> & ->).
  unfold ulevels, uthresholds. simpl.
  repeat split; try assumption; try reflexivity; try apply Hv.
  apply valid_lengths in Hv. rewrite unsigned_levels_length in Hv. lia.
Qed.

Lemma signed_levels_step (L : Z) (p : Q) (i : nat) :
  (2 <= L)%Z -> (S i < Z.to_nat L)%nat ->
  nth (S i) (signed_levels L p) 0 - nth i (signed_levels L p) 0
  == p / inject_Z (L / 2).
Proof.
  intros HL Hi. rewrite !signed_levels_nth by lia.
  replace (- L / 2 + Z.of_nat (S i))%Z with ((- L / 2 + Z.of_nat i) + 1)%Z by lia.
  rewrite inject_Z_succ. field.
  change 0 with (inject_Z 0). rewrite inject_Z_injective.
  Z.div_mod_to_equations. lia.
Qed.

Lemma signed_init (L : Z) (p : Q) (ty : string) (u : UniformQuantizer.t) :
  UniformQuantizer.__init__ L p ty = Return u ->
  signed_mode ty ->
  (2 <= L)%Z /\ 0 < p /\
  UniformQuantizer._quantization_step u = 2 * p / inject_Z L /\
  UniformQuantizer._type u = ty /\
  valid (ulevels u) (uthresholds u) /\
  length (ulevels u) = Z.to_nat L /\
  uthresholds u = derived_thresholds (2 * p / inject_Z L) (ulevels u) /\
  (forall i, (i < Z.to_nat L)%nat ->
     nth i (ulevels u) 0 ==
     nth i (signed_levels L p) 0 + offset ty (2 * p / inject_Z L)).
Proof.
  intros H Hty. apply UniformQuantizer_init_Return in H.
  destruct H as (delta & ls & Hd & Hv & ->).
  unfold ulevels, uthresholds. simpl.
  assert (Hshape : L <> 0%Z /\ (L / 2 <> 0)%Z /\ delta = 2 * p / inject_Z L /\
                   length ls = length (signed_levels L p) /\
                   forall i, (i < length ls)%nat ->
                     nth i ls 0 == nth i (signed_levels L p) 0 + offset ty delta).
  { destruct Hty as [-> | ->].
    - apply derive_mid_riser in Hd. destruct Hd as (H0 & Hm & -> & ->).
      repeat split; try assumption.
      intros i Hi. unfold offset. simpl. now rewrite Qplus_0_r.
    - apply derive_mid_tread in Hd. destruct Hd as (H0 & Hm & -> & ->).
      repeat split; try assumption; [apply length_map|].
      intros i Hi. rewrite length_map in Hi.
      unfold offset. simpl.
      rewrite (nth_map_Q (fun v => v + 2 * p / inject_Z L / 2) _ 0) by assumption.
      reflexivity. }
  destruct Hshape as (H0 & Hm & -> & Hlen & Hnth).
  assert (HL : (2 <= L)%Z).
  { pose proof (valid_lengths _ _ Hv) as Hl. rewrite Hlen in Hl.
    unfold signed_levels in Hl.
    rewrite length_map, scale_arange_length in Hl.
    Z.div_mod_to_equations. lia. }
  rewrite signed_levels_length in Hlen by lia.
  assert (Hp : 0 < p).
  { pose proof (increasing_nth_lt ls 0 1 (valid_levels_increasing _ _ Hv)
                                    ltac:(lia)) as Hlt.
    rewrite !Hnth in Hlt by lia.
    pose proof (signed_levels_step L p 0 HL ltac:(lia)) as Hs.
    assert (Hm' : 0 < inject_Z (L / 2)).
    { change 0 with (inject_Z 0). apply inject_Z_lt.
      Z.div_mod_to_equations. lia. }
    assert (Hq : 0 < p / inject_Z (L / 2)) by (rewrite <- Hs; lra).
    assert (E : p == p / inject_Z (L / 2) * inject_Z (L / 2)) by (field; lra).
    rewrite E. apply Qmult_lt_0_compat; assumption. }
  repeat split; try assumption; try reflexivity; try apply Hv.
  intros i Hi. apply Hnth. lia.
Qed.

Lemma signed_step_pos (L : Z) (p : Q) :
  (2 <= L)%Z -> 0 < p -> 0 < 2 * p / inject_Z L.
Proof.
  intros HL Hp. apply Qlt_shift_div_l.
  - change 0 with (inject_Z 0). apply inject_Z_lt. lia.
  - lra.
Qed.

Lemma even_half (L : Z) :
  Z.even L = true -> L = (2 * (L / 2))%Z /\ (- L / 2 = - (L / 2))%Z.
Proof.
  intros H. apply Z.even_spec in H. destruct H as [k ->].
  Z.div_mod_to_equations. lia.
Qed.

(** With an even number of levels a signed-mode quantizer is a grid of
    step [delta], over [m = L/2] cells on either side of the middle. *)
Lemma signed_even_grid (L : Z) (p : Q) (ty : string) (u : UniformQuantizer.t) :
  UniformQuantizer.__init__ L p ty = Return u ->
  signed_mode ty ->
  Z.even L = true ->
  let delta := UniformQuantizer._quantization_step u in
  let m := (L / 2)%Z in
  0 < delta /\ inject_Z m * delta == p /\
  length (ulevels u) = Z.to_nat (2 * m) /\
  length (uthresholds u) = pred (length (ulevels u)) /\
  (forall i, (i < length (ulevels u))%nat ->
     nth i (ulevels u) 0 == inject_Z (Z.of_nat i - m) * delta + offset ty delta) /\
  (forall j, (j < length (uthresholds u))%nat ->
     nth j (uthresholds u) 0 == nth j (ulevels u) 0 + delta / 2).
Proof.
  intros H Hty Hev.
  destruct (signed_init L p ty u H Hty)
    as (HL & Hp & Hd & _ & Hv & Hlen & Hts & Hnth).
  destruct (even_half L Hev) as [HLm Hneg].
  cbv zeta. rewrite Hd. set (m := (L / 2)%Z) in *.
  assert (Hm : (1 <= m)%Z) by lia.
  assert (Him : 0 < inject_Z m).
  { change 0 with (inject_Z 0). apply inject_Z_lt. lia. }
  assert (HiL : inject_Z L == 2 * inject_Z m).
  { rewrite HLm at 1. rewrite inject_Z_mult. reflexivity. }
  split; [now apply signed_step_pos|].
  split; [rewrite HiL; field; lra|].
  split; [rewrite Hlen; f_equal; lia|].
  split; [rewrite Hts; apply derived_thresholds_length|].
  split.
  - intros i Hi. rewrite Hlen in Hi. rewrite (Hnth i Hi).
    rewrite signed_levels_nth by lia. fold m. rewrite Hneg.
    replace (- m + Z.of_nat i)%Z with (Z.of_nat i - m)%Z by lia.
    apply Qplus_inj_r. rewrite HiL. field. lra.
  - intros j Hj. rewrite Hts in Hj |- *.
    rewrite derived_thresholds_length in Hj.
    rewrite derived_thresholds_nth by lia. reflexivity.
Qed.

Lemma closed_form_value (ty : string) (delta x : Q) :
  signed_mode ty -> 0 < delta ->
  (if (ty =? "mid-riser")%string
   then mid_riser_value delta x else mid_tread_value delta x)
  == inject_Z (cell delta (offset ty delta) x) * delta + offset ty delta.
Proof.
  intros [-> | ->] Hd; unfold offset; simpl.
  - apply mid_riser_value_cell.
  - apply mid_tread_value_cell. lra.
Qed.

Lemma UniformQuantizer_call_signed (u : UniformQuantizer.t) (a : ndarray) :
  signed_mode (UniformQuantizer._type u) ->
  UniformQuantizer.__call__ u a =
  PyArray (ndarray_map
    (fun x => if (UniformQuantizer._type u =? "mid-riser")%string
              then mid_riser_value (UniformQuantizer._quantization_step u) x
              else mid_tread_value (UniformQuantizer._quantization_step u) x) a).
Proof.
  unfold UniformQuantizer.__call__. intros [E | E]; rewrite E; reflexivity.
Qed.

Lemma UniformQuantizer_call_unsigned (u : UniformQuantizer.t) (a : ndarray) :
  UniformQuantizer._type u = "unsigned"%string ->
  UniformQuantizer.__call__ u a = PyInt 0.
Proof.
  unfold UniformQuantizer.__call__. intros ->. reflexivity.
Qed.

(** Inside the range and off the thresholds, on one element: the closed
    form is the level the threshold search selects. *)
Lemma closed_form_level_of (L : Z) (p : Q) (ty : string)
      (u : UniformQuantizer.t) (x : Q) :
  UniformQuantizer.__init__ L p ty = Return u ->
  signed_mode ty ->
  Z.even L = true ->
  search_range ty p (UniformQuantizer._quantization_step u) x ->
  Forall (fun t => ~ x == t) (uthresholds u) ->
  (if (ty =? "mid-riser")%string
   then mid_riser_value (UniformQuantizer._quantization_step u) x
   else mid_tread_value (UniformQuantizer._quantization_step u) x)
  == level_of (UniformQuantizer.base u) x.
Proof.
  intros H Hty Hev Hrange Hoff.
  destruct (signed_even_grid L p ty u H Hty Hev)
    as (Hd & Hmp & Hll & Htl & Hln & Htn).
  set (delta := UniformQuantizer._quantization_step u) in *.
  rewrite (closed_form_value ty delta x Hty Hd).
  unfold level_of. fold (ulevels u) (uthresholds u).
  symmetry.
  apply (grid_level delta (offset ty delta) (L / 2) (ulevels u) (uthresholds u));
    try assumption.
  - apply cell_inside; [assumption| |].
    + rewrite inject_Z_opp.
      destruct Hty as [-> | ->]; unfold search_range, offset in *;
        simpl in *; halves; nra.
    + destruct Hty as [-> | ->]; unfold search_range, offset in *;
        simpl in *; halves; nra.
  - intros j Hj. rewrite Forall_forall in Hoff. apply Hoff, nth_In, Hj.
Qed.

(** ** Outside the levels, for any number of levels

    With [m = L // 2] the stored levels are [(k0 + i) * p / m] (plus the
    offset), [k0 = -L // 2], and the closed form yields multiples of
    [2p / L] (plus the offset); the two meet at cell [c] and index [i] only
    if [2 * c * m = (k0 + i) * L]. *)

Lemma parity_cases (L : Z) :
  (L = 2 * (L / 2) /\ - L / 2 = - (L / 2))%Z \/
  (L = 2 * (L / 2) + 1 /\ - L / 2 = - (L / 2) - 1)%Z.
Proof. Z.div_mod_to_equations. lia. Qed.

Lemma off_levels_arith (L c i : Z) :
  (2 <= L)%Z -> L <> 3%Z -> (0 <= i < L)%Z ->
  (L < 2 * c \/ 2 * c + L + 1 < 0)%Z ->
  (2 * c * (L / 2) <> (- L / 2 + i) * L)%Z.
Proof.
  intros HL H3 Hi Hc.
  destruct (parity_cases L) as [[HLm Hk]|[HLm Hk]]; rewrite Hk;
    set (m := (L / 2)%Z) in *; clearbody m; subst L.
  - destruct Hc as [Hc|Hc]; nia.
  - destruct Hc as [Hc|Hc]; nia.
Qed.

Lemma offset_bounds (ty : string) (delta : Q) :
  0 < delta -> 0 <= offset ty delta /\ offset ty delta <= delta / 2.
Proof.
  intros Hd. unfold offset. destruct (ty =? "mid-tread")%string; halves; lra.
Qed.

Lemma signed_outside (L : Z) (p : Q) (ty : string) (u : UniformQuantizer.t)
      (x v : Q) :
  UniformQuantizer.__init__ L p ty = Return u ->
  signed_mode ty ->
  L <> 3%Z ->
  p + UniformQuantizer._quantization_step u < Qabs x ->
  In v (ulevels u) ->
  let delta := UniformQuantizer._quantization_step u in
  ~ inject_Z (cell delta (offset ty delta) x) * delta + offset ty delta == v.
Proof.
  intros H Hty H3 Habs Hin. cbv zeta.
  destruct (signed_init L p ty u H Hty)
    as (HL & Hp & Hd & _ & _ & Hlen & _ & Hnth).
  set (delta := UniformQuantizer._quantization_step u) in *.
  assert (Hdpos : 0 < delta) by (rewrite Hd; now apply signed_step_pos).
  destruct (offset_bounds ty delta Hdpos) as [Hc0 Hc1].
  set (c := offset ty delta) in *.
  set (k := cell delta c x).
  destruct (cell_bounds delta c Hdpos x) as [Blo Bhi]. fold k in Blo, Bhi.
  assert (HiL : 0 < inject_Z L).
  { change 0 with (inject_Z 0). apply inject_Z_lt. lia. }
  assert (Him : 0 < inject_Z (L / 2)).
  { change 0 with (inject_Z 0). apply inject_Z_lt.
    Z.div_mod_to_equations. lia. }
  assert (HdL : delta * inject_Z L == 2 * p) by (rewrite Hd; field; lra).
  destruct (In_nth _ _ 0 Hin) as (i & Hi & Hv). rewrite Hlen in Hi.
  intros Heq. rewrite <- Hv, (Hnth i Hi) in Heq.
  rewrite signed_levels_nth in Heq by lia. rewrite <- Hd in Heq. fold c in Heq.
  apply Qplus_inj_r in Heq.
  assert (Hz : (2 * k * (L / 2) = (- L / 2 + Z.of_nat i) * L)%Z).
  { apply inject_Z_injective.
    rewrite !inject_Z_mult.
    set (J := inject_Z (- L / 2 + Z.of_nat i)) in *.
    set (K := inject_Z k) in *.
    assert (E : (inject_Z 2 * K * inject_Z (L / 2) - J * inject_Z L) * p == 0).
    { assert (E1 : K * delta * (inject_Z L * inject_Z (L / 2))
                   == 2 * K * inject_Z (L / 2) * p).
      { rewrite Hd. field. lra. }
      assert (E2 : p * J / inject_Z (L / 2) * (inject_Z L * inject_Z (L / 2))
                   == J * inject_Z L * p).
      { field. lra. }
      rewrite Heq in E1. rewrite E2 in E1.
      change (inject_Z 2) with 2. lra. }
    apply Qmult_integral in E. destruct E as [E|E]; lra. }
  assert (Hcases : x < - (p + delta) \/ p + delta < x).
  { revert Habs. apply Qabs_case; intros Hx Habs; [right|left]; lra. }
  assert (Hk : (L < 2 * k \/ 2 * k + L + 1 < 0)%Z).
  { destruct Hcases as [Hlow|Hhigh].
    - right.
      assert (Hq : inject_Z (2 * k + L + 1) < inject_Z 0).
      { rewrite !inject_Z_plus, inject_Z_mult.
        change (inject_Z 2) with 2. change (inject_Z 1) with 1.
        change (inject_Z 0) with 0.
        set (K := inject_Z k) in *.
        halves.
        assert (E : (2 * K + inject_Z L + 1) * p < 0) by nra.
        nra. }
      now rewrite <- Zlt_Qlt in Hq.
    - left.
      assert (Hq : inject_Z L < inject_Z (2 * k)).
      { rewrite inject_Z_mult. change (inject_Z 2) with 2.
        set (K := inject_Z k) in *. halves.
        assert (E : 0 < (2 * K - inject_Z L) * p) by nra.
        nra. }
      now rewrite <- Zlt_Qlt in Hq. }
  revert Hz. apply off_levels_arith; try assumption. lia.
Qed.

(** ** Calls and errors of constructed quantizers *)

Lemma uniform_constructed_cases (L : Z) (p : Q) (ty : string)
      (u : UniformQuantizer.t) :
  UniformQuantizer.__init__ L p ty = Return u ->
  valid (ulevels u) (uthresholds u) /\
  (UniformQuantizer._type u = "unsigned"%string \/
   signed_mode (UniformQuantizer._type u) /\
   0 < UniformQuantizer._quantization_step u).
Proof.
  intros H. pose proof H as H'. apply UniformQuantizer_init_Return in H'.
  destruct H' as (delta & ls & Hd & _ & _).
  destruct (derive_mode _ _ _ _ Hd) as [-> | Hs].
  - destruct (unsigned_init L p u H) as (_ & _ & Ht & Hv & _). auto.
  - destruct (signed_init L p ty u H Hs) as (HL & Hp & Hd' & Ht & Hv & _).
    split; [assumption|]. right. rewrite Ht, Hd'.
    split; [assumption|now apply signed_step_pos].
Qed.

(** * Properties of the binary64 embedding *)

(** ** The order of the floats *)

Ltac place_cases :=
  split;
  [ let Hc := fresh in
    intros Hc; try discriminate Hc;
    repeat split; try reflexivity; try lia; try congruence
  | let Hx := fresh in let Hy := fresh in let Hp := fresh in
    intros (Hx & Hy & Hp);
    try discriminate Hx; try discriminate Hy; try reflexivity;
    try (exfalso; lia); try (exfalso; inversion Hp; lia) ].

Lemma flt_place (x y : B64.float) :
  Flt x y <->
  B64.is_nan x = false /\ B64.is_nan y = false /\ before (place x) (place y).
Proof.
  unfold Flt, B64.flt, SFltb, before.
  destruct x as [sx|sx| |sx mx ex], y as [sy|sy| |sy my ey]; simpl;
    try destruct sx; try destruct sy; simpl; try (now place_cases).
  - destruct (Z.compare_spec ex ey) as [E|E|E]; try (now place_cases).
    subst. change (Pos.compare_cont Eq mx my) with (Pos.compare mx my).
    destruct (Pos.compare_spec mx my) as [E|E|E]; simpl; now place_cases.
  - destruct (Z.compare_spec ex ey) as [E|E|E]; try (now place_cases).
    subst. change (Pos.compare_cont Eq mx my) with (Pos.compare mx my).
    destruct (Pos.compare_spec mx my) as [E|E|E]; simpl; now place_cases.
Qed.

Lemma feq_place (x y : B64.float) :
  Feq x y <->
  B64.is_nan x = false /\ B64.is_nan y = false /\ place x = place y.
Proof.
  unfold Feq, B64.feq, SFeqb.
  destruct x as [sx|sx| |sx mx ex], y as [sy|sy| |sy my ey]; simpl;
    try destruct sx; try destruct sy; simpl; try (now place_cases).
  - destruct (Z.compare_spec ex ey) as [E|E|E]; try (now place_cases).
    subst. change (Pos.compare_cont Eq mx my) with (Pos.compare mx my).
    destruct (Pos.compare_spec mx my) as [E|E|E]; simpl; now place_cases.
  - destruct (Z.compare_spec ex ey) as [E|E|E]; try (now place_cases).
    subst. change (Pos.compare_cont Eq mx my) with (Pos.compare mx my).
    destruct (Pos.compare_spec mx my) as [E|E|E]; simpl; now place_cases.
Qed.

Ltac by_place :=
  repeat match goal with
         | H : Flt _ _ |- _ => apply flt_place in H; destruct H as (? & ? & H)
         | H : Feq _ _ |- _ => apply feq_place in H; destruct H as (? & ? & H)
         end;
  repeat match goal with
         | |- context [place ?x] =>
             let a := fresh "a" in let b := fresh "b" in let c := fresh "c" in
             destruct (place x) as [[a b] c]
         | H : context [place ?x] |- _ =>
             let a := fresh "a" in let b := fresh "b" in let c := fresh "c" in
             destruct (place x) as [[a b] c]
         end;
  unfold before in *;
  repeat match goal with
         | H : (_, _, _) = (_, _, _) |- _ => inversion H; clear H; subst
         end.

Lemma Flt_trans (x y z : B64.float) : Flt x y -> Flt y z -> Flt x z.
Proof.
  intros H1 H2. apply flt_place. by_place. repeat split; auto. lia.
Qed.

Lemma Flt_asym (x y : B64.float) : Flt x y -> ~ Flt y x.
Proof. intros H1 H2. by_place. lia. Qed.

Lemma Flt_not_nan (x y : B64.float) :
  Flt x y -> B64.is_nan x = false /\ B64.is_nan y = false.
Proof. intros H. apply flt_place in H. tauto. Qed.

Lemma Feq_not_nan (x y : B64.float) :
  Feq x y -> B64.is_nan x = false /\ B64.is_nan y = false.
Proof. intros H. apply feq_place in H. tauto. Qed.

Lemma Feq_refl (x : B64.float) : B64.is_nan x = false -> Feq x x.
Proof. intros H. apply feq_place. auto. Qed.

Lemma Feq_sym (x y : B64.float) : Feq x y -> Feq y x.
Proof. intros H. apply feq_place. apply feq_place in H. intuition. Qed.

Lemma Feq_trans (x y z : B64.float) : Feq x y -> Feq y z -> Feq x z.
Proof.
  intros H1 H2. apply feq_place. apply feq_place in H1, H2.
  intuition congruence.
Qed.

Lemma Flt_Feq_l (x y z : B64.float) : Feq x y -> Flt x z -> Flt y z.
Proof.
  intros H1 H2. apply flt_place. apply feq_place in H1. apply flt_place in H2.
  destruct H1 as (? & ? & E), H2 as (? & ? & H2). rewrite <- E. auto.
Qed.

Lemma Flt_Feq_r (x y z : B64.float) : Feq x y -> Flt z x -> Flt z y.
Proof.
  intros H1 H2. apply flt_place. apply feq_place in H1. apply flt_place in H2.
  destruct H1 as (? & ? & E), H2 as (? & ? & H2). rewrite <- E. auto.
Qed.

Lemma float_total (x y : B64.float) :
  B64.is_nan x = false -> B64.is_nan y = false ->
  Flt x y \/ Feq x y \/ Flt y x.
Proof.
  intros Hx Hy. rewrite !flt_place, feq_place.
  destruct (place x) as [[a1 a2] a3], (place y) as [[b1 b2] b3].
  unfold before.
  assert (C : ((a1 < b1 \/ (a1 = b1 /\ (a2 < b2 \/ (a2 = b2 /\ a3 < b3)))) \/
               (a1 = b1 /\ a2 = b2 /\ a3 = b3) \/
               (b1 < a1 \/ (b1 = a1 /\ (b2 < a2 \/ (b2 = a2 /\ b3 < a3)))))%Z)
    by lia.
  destruct C as [C|[(-> & -> & ->)|C]]; auto.
Qed.

Lemma SFleb_flt_feq (x y : B64.float) :
  SFleb x y = B64.flt x y || B64.feq x y.
Proof.
  unfold SFleb, B64.flt, B64.feq, SFltb, SFeqb.
  destruct (SFcompare x y) as [[]|]; reflexivity.
Qed.

(** ** Sorting and [np.unique] on floats *)

Lemma sorts_before_total (x y : B64.float) :
  B64.sorts_before x y = false -> B64.sorts_before y x = true.
Proof.
  unfold B64.sorts_before. rewrite !SFleb_flt_feq.
  intros H. apply orb_false_iff in H. destruct H as [Hy H].
  apply orb_false_iff in H. destruct H as [H1 H2].
  destruct (B64.is_nan x) eqn:Hx; [reflexivity|]. simpl.
  destruct (float_total x y Hx Hy) as [C|[C|C]].
  - unfold Flt in C. congruence.
  - unfold Feq in C. congruence.
  - unfold Flt in C. now rewrite C.
Qed.

Lemma sorts_before_numbers (x y : B64.float) :
  number y -> B64.sorts_before x y = true -> Flt x y \/ Feq x y.
Proof.
  unfold number, B64.sorts_before. intros -> H. simpl in H.
  rewrite SFleb_flt_feq in H. apply orb_true_iff in H. exact H.
Qed.

Lemma sorts_before_trans (x y z : B64.float) :
  B64.sorts_before x y = true -> B64.sorts_before y z = true ->
  B64.sorts_before x z = true.
Proof.
  intros H1 H2. destruct (B64.is_nan z) eqn:Hz.
  - unfold B64.sorts_before. now rewrite Hz.
  - destruct (sorts_before_numbers y z Hz H2) as [C|C].
    + destruct (Flt_not_nan _ _ C) as [Hy _].
      unfold B64.sorts_before. rewrite Hz, SFleb_flt_feq. simpl.
      destruct (sorts_before_numbers x y Hy H1) as [D|D].
      * pose proof (Flt_trans _ _ _ D C) as E. unfold Flt in E. now rewrite E.
      * apply Feq_sym in D. pose proof (Flt_Feq_l _ _ _ D C) as E.
        unfold Flt in E. now rewrite E.
    + destruct (Feq_not_nan _ _ C) as [Hy _].
      unfold B64.sorts_before. rewrite Hz, SFleb_flt_feq. simpl.
      destruct (sorts_before_numbers x y Hy H1) as [D|D].
      * pose proof (Flt_Feq_r _ _ _ C D) as E. unfold Flt in E. now rewrite E.
      * pose proof (Feq_trans _ _ _ D C) as E. unfold Feq in E.
        rewrite E. apply orb_true_r.
Qed.

Lemma Finsert_sorted_In (x z : B64.float) (l : list B64.float) :
  In z (B64.insert_sorted x l) <-> z = x \/ In z l.
Proof.
  induction l as [|y l IH]; simpl.
  - intuition.
  - destruct (B64.sorts_before x y); simpl; [intuition|].
    rewrite IH. intuition.
Qed.

Lemma Finsert_sorted_sorted (x : B64.float) (l : list B64.float) :
  StronglySorted (fun a b => B64.sorts_before a b = true) l ->
  StronglySorted (fun a b => B64.sorts_before a b = true) (B64.insert_sorted x l).
Proof.
  induction 1 as [|y l Hs IH Hall]; simpl.
  - repeat constructor.
  - destruct (B64.sorts_before x y) eqn:E.
    + constructor; [now constructor|].
      constructor; [assumption|].
      rewrite Forall_forall in *. intros z Hz.
      eapply sorts_before_trans; eauto.
    + apply sorts_before_total in E. constructor; [assumption|].
      rewrite Forall_forall in *. intros z Hz.
      apply Finsert_sorted_In in Hz. destruct Hz as [->|Hz]; auto.
Qed.

Lemma Fnp_sort_sorted (l : list B64.float) :
  StronglySorted (fun a b => B64.sorts_before a b = true) (B64.np_sort l).
Proof.
  induction l; simpl; [constructor|]. now apply Finsert_sorted_sorted.
Qed.

(** A nan is different from the element before it, so [np.unique] keeps
    every nan. *)
Lemma drop_repeats_numbers (prev : B64.float) (l : list B64.float) :
  Forall number (B64.drop_repeats prev l) -> Forall number l.
Proof.
  revert prev. induction l as [|x l IH]; intros prev H; [constructor|].
  simpl in H. destruct (B64.feq x prev) eqn:E.
  - constructor; [|now apply IH with x].
    apply (Feq_not_nan x prev E).
  - inversion H; subst. constructor; [assumption|now apply IH with x].
Qed.

Lemma drop_repeats_increasing (prev : B64.float) (l : list B64.float) :
  Forall number l ->
  StronglySorted (fun a b => B64.sorts_before a b = true) (prev :: l) ->
  Fincreasing (B64.drop_repeats prev l) /\
  Forall (Flt prev) (B64.drop_repeats prev l).
Proof.
  revert prev. induction l as [|y l IH]; intros prev Hn Hs; simpl.
  - split; constructor.
  - inversion Hn as [|? ? Hy Hn']; subst.
    inversion Hs as [|? ? Hs' Hall]; subst.
    inversion Hall as [|? ? Hpy Hall']; subst.
    destruct (IH y Hn' Hs') as [IH1 IH2].
    destruct (B64.feq y prev) eqn:E.
    + split; [assumption|].
      eapply Forall_impl; [|exact IH2].
      intros z Hz. eapply Flt_Feq_l; eauto.
    + assert (Hlt : Flt prev y).
      { destruct (sorts_before_numbers prev y Hy Hpy) as [C|C]; [assumption|].
        apply Feq_sym in C. unfold Feq in C. congruence. }
      split.
      * constructor; assumption.
      * constructor; [assumption|].
        eapply Forall_impl; [|exact IH2].
        intros z Hz. eapply Flt_trans; eauto.
Qed.

Lemma Fnp_array_equal_Forall2 (a b : list B64.float) :
  B64.np_array_equal a b = true <-> Forall2 Feq a b.
Proof.
  revert b. induction a as [|x a IH]; intros [|y b]; simpl.
  - split; [constructor|reflexivity].
  - split; [discriminate|inversion 1].
  - split; [discriminate|inversion 1].
  - rewrite andb_true_iff, IH. split.
    + intros [? ?]; now constructor.
    + inversion 1; subst; auto.
Qed.

Lemma Forall2_Feq_increasing (a b : list B64.float) :
  Forall2 Feq a b -> Fincreasing a -> Fincreasing b.
Proof.
  unfold Fincreasing.
  induction 1 as [|x y a b Hxy Hab IH]; intros Hs; [constructor|].
  inversion Hs as [|? ? Hs' Hall]; subst.
  constructor; [now apply IH|].
  clear IH Hs Hs'. induction Hab as [|x' y' a b Hxy' Hab IH'].
  - constructor.
  - inversion Hall; subst. constructor; [|now apply IH'].
    eapply Flt_Feq_l; [eassumption|]. eapply Flt_Feq_r; eassumption.
Qed.

(** The test of the constructor, [np.array_equal(np.unique(a), a)], holds
    of strictly increasing sequences only; none of them holds a nan. *)
Lemma Funique_fixpoint (l : list B64.float) :
  B64.np_array_equal (B64.np_unique l) l = true -> Fincreasing l.
Proof.
  intros H. apply Fnp_array_equal_Forall2 in H.
  apply Forall2_Feq_increasing with (B64.np_unique l); [assumption|].
  assert (Hu : Forall number (B64.np_unique l)).
  { clear -H. induction H as [|x y a b Hxy _ IH]; constructor; auto.
    apply (Feq_not_nan x y Hxy). }
  unfold B64.np_unique in *.
  pose proof (Fnp_sort_sorted l) as Hs.
  destruct (B64.np_sort l) as [|x s]; [constructor|].
  inversion Hu as [|? ? Hx Hu']; subst.
  apply drop_repeats_numbers in Hu'.
  destruct (drop_repeats_increasing x s Hu' Hs) as [H1 H2].
  constructor; assumption.
Qed.

(** ** The numpy operations on scalars and 1-d arrays *)

Lemma firstn_length_app {A : Type} (r l : list A) :
  firstn (length r) (r ++ l) = r.
Proof.
  induction r as [|x r IH]; simpl; [now destruct l|]. now rewrite IH.
Qed.

Lemma skipn_length_app {A : Type} (r l : list A) :
  skipn (length r) (r ++ l) = l.
Proof.
  induction r as [|x r IH]; simpl; [reflexivity|]. exact IH.
Qed.

Lemma chunks_concat {A : Type} (k : nat) (l : list (list A)) :
  Forall (fun r => length r = k) l ->
  B64.chunks (length l) k (concat l) = l.
Proof.
  induction 1 as [|r l Hr _ IH]; [reflexivity|].
  cbn [length concat B64.chunks].
  assert (E1 : firstn k (r ++ concat l) = r)
    by (rewrite <- Hr; apply firstn_length_app).
  assert (E2 : skipn k (r ++ concat l) = concat l)
    by (rewrite <- Hr; apply skipn_length_app).
  now rewrite E1, E2, IH.
Qed.

Lemma chunks_singletons {A : Type} (l : list A) :
  B64.chunks (length l) 1 l = map (fun x => [x]) l.
Proof.
  induction l as [|x l IH]; [reflexivity|].
  cbn [length B64.chunks map]. simpl. now rewrite IH.
Qed.

Lemma columns_singletons {A : Type} (l : list A) :
  B64.columns 1 (map (fun x => [x]) l) = [l].
Proof.
  cbn [B64.columns]. f_equal.
  induction l as [|x l IH]; [reflexivity|].
  simpl. f_equal. exact IH.
Qed.

Lemma transpose_data_1d {A : Type} (xs : list A) :
  B64.transpose_data [length xs] xs = xs.
Proof.
  cbn [B64.transpose_data B64.size fold_right].
  rewrite chunks_singletons, map_map. cbn [B64.transpose_data].
  rewrite columns_singletons. simpl. apply app_nil_r.
Qed.

Lemma columns_repeat {A : Type} (xs : list A) (t : nat) :
  B64.columns (length xs) (repeat xs t) = map (fun x => repeat x t) xs.
Proof.
  induction xs as [|x xs IH]; [reflexivity|].
  cbn [length B64.columns map]. f_equal.
  - clear IH. induction t as [|t IH]; [reflexivity|].
    simpl. f_equal. exact IH.
  - rewrite <- IH. f_equal.
    clear IH. induction t as [|t IH]; [reflexivity|].
    simpl. f_equal. exact IH.
Qed.

Lemma map2_repeat (x : B64.float) (ts : list B64.float) :
  B64.map2 B64.fgt (repeat x (length ts)) ts = map (B64.fgt x) ts.
Proof.
  induction ts as [|t ts IH]; simpl; [reflexivity|]. now rewrite IH.
Qed.

Lemma sum_rows_singletons (bs : list bool) :
  B64.sum_rows 1 (map (fun b => [b]) bs) = [length (filter (fun b => b) bs)].
Proof.
  induction bs as [|b bs IH]; [reflexivity|].
  cbn [map B64.sum_rows fold_right] in *. unfold B64.sum_rows in IH.
  rewrite IH. destruct b; reflexivity.
Qed.

Lemma Forall_map_length {A B : Type} (f : A -> list B) (k : nat) (l : list A) :
  (forall x, length (f x) = k) -> Forall (fun r => length r = k) (map f l).
Proof.
  intros H. apply Forall_forall. intros r Hr.
  apply in_map_iff in Hr. destruct Hr as (x & <- & _). apply H.
Qed.

Lemma transpose_data_cons {A : Type} (n : nat) (s : list nat) (d : list A) :
  B64.transpose_data (n :: s) d =
  concat (B64.columns (B64.size s)
            (map (B64.transpose_data s) (B64.chunks n (B64.size s) d))).
Proof. reflexivity. Qed.

(** The tiled and transposed input: one row per element, holding that
    element once per threshold. *)
Lemma tile_transpose_1d (xs : list B64.float) (t : nat) :
  B64.np_transpose (B64.np_tile (B64.array1d xs) t) =
  B64.Build_ndarray [length xs; t]
    (concat (map (fun x => repeat x t) xs)).
Proof.
  unfold B64.np_transpose, B64.np_tile, B64.array1d.
  cbn [B64.shape B64.data B64.atleast_2d B64.tile_shape B64.tile_data rev app].
  rewrite Nat.mul_1_l. f_equal.
  rewrite transpose_data_cons.
  replace (B64.size [length xs]) with (length xs)
    by (simpl; now rewrite Nat.mul_1_r).
  pose proof (chunks_concat (length xs) (repeat xs t)) as Hc.
  rewrite repeat_length in Hc. rewrite Hc.
  - rewrite map_repeat, transpose_data_1d. now rewrite columns_repeat.
  - apply Forall_forall. intros r Hr. now apply repeat_spec in Hr; subst.
Qed.

Lemma Ftake_counts (ls ts xs : list B64.float) :
  (length ts < length ls)%nat ->
  B64.take ls (map (fun x => Fcount_exceeded x ts) xs) =
  Return (map (fun x => nth (Fcount_exceeded x ts) ls S754_nan) xs).
Proof.
  intros Hlen. induction xs as [|x xs IH]; [reflexivity|].
  simpl.
  assert (Hc : (Fcount_exceeded x ts < length ls)%nat).
  { unfold Fcount_exceeded.
    pose proof (filter_length_le (fun b => b) (map (B64.fgt x) ts)) as H.
    rewrite length_map in H. lia. }
  destruct (nth_error ls (Fcount_exceeded x ts)) as [v|] eqn:E.
  - rewrite IH. simpl. do 2 f_equal.
    symmetry. now apply nth_error_nth.
  - apply nth_error_None in E. lia.
Qed.

(** The search works element by element on a 1-d array, and treats a
    scalar as an array of one element. *)
Lemma Fcall_1d (q : B64.ScalarQuantizer.t) (xs : list B64.float) :
  (length (B64.ScalarQuantizer._thresholds q)
   < length (B64.ScalarQuantizer._levels q))%nat ->
  B64.ScalarQuantizer.__call__ q (B64.array1d xs) =
  Return (B64.array1d (map (Flevel_of q) xs)).
Proof.
  intros Hlen. unfold B64.ScalarQuantizer.__call__.
  rewrite tile_transpose_1d.
  set (ts := B64.ScalarQuantizer._thresholds q) in *.
  set (ls := B64.ScalarQuantizer._levels q) in *.
  unfold B64.np_greater. cbn [B64.shape B64.data last removelast].
  rewrite Nat.eqb_refl. cbn [bind].
  replace (B64.size [length xs]) with (length xs)
    by (simpl; now rewrite Nat.mul_1_r).
  pose proof (chunks_concat (length ts) (map (fun x => repeat x (length ts)) xs))
    as Hc.
  rewrite length_map in Hc. rewrite Hc
    by (apply Forall_map_length; intros; apply repeat_length).
  rewrite map_map.
  unfold B64.np_sum_axis1. cbn [B64.shape B64.data bind B64.size fold_right].
  rewrite Nat.mul_1_r.
  pose proof (chunks_concat (length ts)
                (map (fun x => B64.map2 B64.fgt (repeat x (length ts)) ts) xs))
    as Hd.
  rewrite length_map in Hd. rewrite Hd; clear Hc Hd.
  2:{ apply Forall_map_length. intros x. rewrite map2_repeat.
      apply length_map. }
  rewrite map_map.
  unfold B64.np_take. cbn [B64.shape B64.data].
  assert (E : concat (map (fun x => B64.sum_rows 1
               (B64.chunks (length ts) 1
                  (B64.map2 B64.fgt (repeat x (length ts)) ts))) xs)
              = map (fun x => Fcount_exceeded x ts) xs).
  { induction xs as [|x xs IH]; [reflexivity|].
    cbn [map concat]. rewrite IH, map2_repeat.
    pose proof (chunks_singletons (map (B64.fgt x) ts)) as Hs.
    rewrite length_map in Hs. rewrite Hs, sum_rows_singletons. reflexivity. }
  rewrite E, Ftake_counts by assumption. cbn [bind].
  unfold B64.array1d. now rewrite length_map.
Qed.

Lemma Fcall_scalar (q : B64.ScalarQuantizer.t) (x : B64.float) :
  (length (B64.ScalarQuantizer._thresholds q)
   < length (B64.ScalarQuantizer._levels q))%nat ->
  B64.ScalarQuantizer.__call__ q (B64.scalar x) =
  Return (B64.array1d [Flevel_of q x]).
Proof.
  intros Hlen. exact (Fcall_1d q [x] Hlen).
Qed.

(** ** Valid sequences of floats and the search over them *)

Lemma Fvalid_lengths (ls ts : list B64.float) :
  Fvalid ls ts -> length ls = S (length ts).
Proof. intros [H _]. lia. Qed.

Lemma FScalarQuantizer_init_Return (levels thresholds : list B64.float)
      (q : B64.ScalarQuantizer.t) :
  B64.ScalarQuantizer.__init__ levels thresholds = Return q ->
  q = B64.ScalarQuantizer.Build levels thresholds (Z.of_nat (length levels)) /\
  Fvalid levels thresholds.
Proof.
  unfold B64.ScalarQuantizer.__init__.
  destruct (Z.eqb_spec (Z.of_nat (length thresholds))
                       (Z.of_nat (length levels) - 1)) as [E|E]; simpl;
    [|discriminate].
  destruct (B64.np_array_equal _ _) eqn:U; simpl; [|discriminate].
  intros H. inversion H. split; [reflexivity|].
  split; [assumption|]. now apply Funique_fixpoint.
Qed.

Lemma Fconstructed_valid (q : B64.ScalarQuantizer.t) :
  Fconstructed q ->
  Fvalid (B64.ScalarQuantizer._levels q) (B64.ScalarQuantizer._thresholds q).
Proof.
  intros (ls & ts & H). apply FScalarQuantizer_init_Return in H.
  destruct H as [-> H]. exact H.
Qed.

Lemma FScalarQuantizer_init_Raise (levels thresholds : list B64.float) (e : exn) :
  B64.ScalarQuantizer.__init__ levels thresholds = Raise e ->
  e = length_error \/ e = values_error.
Proof.
  unfold B64.ScalarQuantizer.__init__.
  destruct (negb _); [intros H; inversion H; now left|].
  destruct (negb _); [intros H; inversion H; now right|discriminate].
Qed.

Lemma Finterleave_In {A : Type} (ls ts : list A) (z : A) :
  Z.of_nat (length ts) = (Z.of_nat (length ls) - 1)%Z ->
  In z ls \/ In z ts -> In z (B64.interleave ls ts).
Proof.
  revert ts. induction ls as [|v ls IH]; intros ts Hlen Hz;
    cbn [length] in Hlen; [lia|].
  destruct ts as [|t ts]; cbn [length] in Hlen.
  - destruct ls; cbn [length] in Hlen; [|lia].
    destruct Hz as [Hz|[]]. exact Hz.
  - cbn [B64.interleave].
    destruct Hz as [[<-|Hz]|[<-|Hz]].
    + now left.
    + right. right. apply IH; [lia|now left].
    + right. now left.
    + right. right. apply IH; [lia|now right].
Qed.

Lemma Fvalid_cons (v t : B64.float) (ls ts : list B64.float) :
  Fvalid (v :: ls) (t :: ts) ->
  Flt v t /\ Fvalid ls ts /\
  Forall (Flt v) ts /\ Forall (Flt t) ls.
Proof.
  intros [Hlen Hs]. cbn [length] in Hlen. cbn [B64.interleave] in Hs.
  inversion Hs as [|? ? Hs' Hall]; subst.
  inversion Hs' as [|? ? Hs'' Hall']; subst.
  inversion Hall as [|? ? Hvt Hall'']; subst.
  assert (Hl : Z.of_nat (length ts) = (Z.of_nat (length ls) - 1)%Z) by lia.
  split; [assumption|]. split; [split; assumption|].
  rewrite Forall_forall in Hall', Hall''.
  split; apply Forall_forall; intros z Hz.
  - apply Hall''. apply Finterleave_In; auto.
  - apply Hall'. apply Finterleave_In; auto.
Qed.

Lemma Fcount_exceeded_cons (x t : B64.float) (ts : list B64.float) :
  Fcount_exceeded x (t :: ts) =
  if B64.fgt x t then S (Fcount_exceeded x ts) else Fcount_exceeded x ts.
Proof.
  unfold Fcount_exceeded. simpl. now destruct (B64.fgt x t).
Qed.

Lemma Fcount_exceeded_le_length (x : B64.float) (ts : list B64.float) :
  (Fcount_exceeded x ts <= length ts)%nat.
Proof.
  induction ts as [|t ts IH]; [apply Nat.le_refl|].
  rewrite Fcount_exceeded_cons. simpl. destruct (B64.fgt x t); lia.
Qed.

Lemma Fcount_exceeded_none (x : B64.float) (ts : list B64.float) :
  Forall (fun t => ~ Flt t x) ts -> Fcount_exceeded x ts = 0%nat.
Proof.
  induction 1 as [|t ts Ht Hall IH]; [reflexivity|].
  rewrite Fcount_exceeded_cons.
  destruct (B64.fgt x t) eqn:E; [|assumption].
  exfalso. apply Ht. exact E.
Qed.

Lemma Fcount_exceeded_all (x : B64.float) (ts : list B64.float) :
  Forall (fun t => Flt t x) ts -> Fcount_exceeded x ts = length ts.
Proof.
  induction 1 as [|t ts Ht Hall IH]; [reflexivity|].
  rewrite Fcount_exceeded_cons. unfold Flt, B64.flt in Ht.
  unfold B64.fgt. rewrite Ht. simpl. now rewrite IH.
Qed.

(** A stored level exceeds the thresholds before it and no other. *)
Lemma Fcount_exceeded_level (ls ts : list B64.float) (i : nat) :
  Fvalid ls ts -> (i < length ls)%nat ->
  Fcount_exceeded (nth i ls S754_nan) ts = i.
Proof.
  revert ts i. induction ls as [|v ls IH]; intros ts i Hv Hi;
    [simpl in Hi; lia|].
  destruct ts as [|t ts].
  - destruct Hv as [Hlen _]. cbn [length] in Hlen, Hi.
    assert (i = 0%nat) by lia. subst. reflexivity.
  - destruct (Fvalid_cons v t ls ts Hv) as (Hvt & Hv' & Hts & Hls).
    rewrite Fcount_exceeded_cons. destruct i as [|i].
    + cbn [nth].
      assert (E : B64.fgt v t = false).
      { destruct (B64.fgt v t) eqn:E; [|reflexivity].
        exfalso. exact (Flt_asym _ _ Hvt E). }
      rewrite E. apply Fcount_exceeded_none.
      eapply Forall_impl; [|exact Hts].
      intros z Hz. now apply Flt_asym.
    + cbn [nth]. cbn [length] in Hi.
      assert (Hin : In (nth i ls S754_nan) ls) by (apply nth_In; lia).
      rewrite Forall_forall in Hls. specialize (Hls _ Hin).
      unfold Flt, B64.flt in Hls. unfold B64.fgt. rewrite Hls.
      f_equal. apply IH; [assumption|lia].
Qed.

Lemma Flevel_of_index (q : B64.ScalarQuantizer.t) (x : B64.float) :
  Fvalid (B64.ScalarQuantizer._levels q) (B64.ScalarQuantizer._thresholds q) ->
  (Fcount_exceeded x (B64.ScalarQuantizer._thresholds q)
   < length (B64.ScalarQuantizer._levels q))%nat.
Proof.
  intros Hv. apply Fvalid_lengths in Hv.
  pose proof (Fcount_exceeded_le_length x (B64.ScalarQuantizer._thresholds q)).
  lia.
Qed.

Lemma Flevel_of_idempotent (q : B64.ScalarQuantizer.t) (x : B64.float) :
  Fvalid (B64.ScalarQuantizer._levels q) (B64.ScalarQuantizer._thresholds q) ->
  Flevel_of q (Flevel_of q x) = Flevel_of q x.
Proof.
  intros Hv. unfold Flevel_of at 1.
  unfold Flevel_of. rewrite Fcount_exceeded_level; auto.
  now apply Flevel_of_index.
Qed.

Lemma Fcall_valid_1d (q : B64.ScalarQuantizer.t) (xs : list B64.float) :
  Fvalid (B64.ScalarQuantizer._levels q) (B64.ScalarQuantizer._thresholds q) ->
  B64.ScalarQuantizer.__call__ q (B64.array1d xs) =
  Return (B64.array1d (map (Flevel_of q) xs)).
Proof.
  intros Hv. apply Fcall_1d. apply Fvalid_lengths in Hv. lia.
Qed.

Lemma Fcall_valid_scalar (q : B64.ScalarQuantizer.t) (x : B64.float) :
  Fvalid (B64.ScalarQuantizer._levels q) (B64.ScalarQuantizer._thresholds q) ->
  B64.ScalarQuantizer.__call__ q (B64.scalar x) =
  Return (B64.array1d [Flevel_of q x]).
Proof.
  intros Hv. apply Fcall_scalar. apply Fvalid_lengths in Hv. lia.
Qed.

(** An array of rank at most one is a scalar or a 1-d array. *)
Lemma low_rank_cases {A : Type} (a : B64.ndarray A) :
  B64.well_formed a -> (ndim a <= 1)%nat ->
  (exists x, a = B64.scalar x) \/ a = B64.array1d (B64.data a).
Proof.
  destruct a as [s d]. unfold B64.well_formed, ndim. cbn [B64.shape B64.data].
  intros Hw Hr. destruct s as [|n [|m s]]; cbn [length] in Hr; [| |lia].
  - left. simpl in Hw. destruct d as [|x [|y d]]; try discriminate.
    now exists x.
  - right. unfold B64.array1d. simpl in Hw. rewrite Nat.mul_1_r in Hw.
    now rewrite Hw.
Qed.

(** ** Floats and the numbers they stand for *)

Lemma digits2_pos_bounds (m : positive) :
  (2 ^ (Zpos (digits2_pos m) - 1) <= Zpos m < 2 ^ Zpos (digits2_pos m))%Z.
Proof.
  induction m as [m IH|m IH|]; cbn [digits2_pos].
  - rewrite Pos2Z.inj_succ.
    replace (Z.succ (Zpos (digits2_pos m)) - 1)%Z
      with (Z.succ (Zpos (digits2_pos m) - 1)) by lia.
    rewrite !Z.pow_succ_r by lia. lia.
  - rewrite Pos2Z.inj_succ.
    replace (Z.succ (Zpos (digits2_pos m)) - 1)%Z
      with (Z.succ (Zpos (digits2_pos m) - 1)) by lia.
    rewrite !Z.pow_succ_r by lia. lia.
  - simpl. lia.
Qed.

(** A binary64 mantissa has at most 53 bits and its exponent is at least
    -1074; above that exponent the mantissa has all its 53 bits. *)
Lemma valid_finite (s : bool) (m : positive) (e : Z) :
  valid_binary B64.prec B64.emax (S754_finite s m e) = true ->
  (- 1074 <= e /\ Zpos m < 2 ^ 53 /\ (- 1074 < e -> 2 ^ 52 <= Zpos m))%Z.
Proof.
  cbn [valid_binary]. unfold bounded, canonical_mantissa, fexp, emin.
  intros H. apply andb_true_iff in H. destruct H as [H _].
  apply Z.eqb_eq in H. unfold B64.prec, B64.emax in H.
  pose proof (digits2_pos_bounds m) as [Hlo Hhi].
  set (d := Zpos (digits2_pos m)) in *.
  assert (Hd : (0 < d)%Z) by (unfold d; lia).
  assert (Hcases : (d <= 53 /\ - 1074 <= e /\ (- 1074 < e -> d = 53))%Z) by lia.
  destruct Hcases as (Hd53 & He & Hfull).
  split; [assumption|]. split.
  - apply Z.lt_le_trans with (2 ^ d)%Z; [assumption|].
    apply Z.pow_le_mono_r; lia.
  - intros He'. rewrite (Hfull He') in Hlo. exact Hlo.
Qed.

Lemma scaled_order_arith (m1 m2 e1 e2 : Z) :
  (0 < m1 < 2 ^ 53)%Z -> (2 ^ 52 <= m2)%Z -> (- 1074 <= e1 < e2)%Z ->
  (m1 * 2 ^ (e1 + 1074) < m2 * 2 ^ (e2 + 1074))%Z.
Proof.
  intros H1 H2 He.
  replace (e2 + 1074)%Z with ((e1 + 1074) + (e2 - e1))%Z by lia.
  rewrite (Z.pow_add_r 2 (e1 + 1074) (e2 - e1)) by lia.
  assert (Ha : (0 < 2 ^ (e1 + 1074))%Z) by (apply Z.pow_pos_nonneg; lia).
  assert (Hk : (2 <= 2 ^ (e2 - e1))%Z).
  { change 2%Z with (2 ^ 1)%Z at 1. apply Z.pow_le_mono_r; lia. }
  set (a := (2 ^ (e1 + 1074))%Z) in *. set (k := (2 ^ (e2 - e1))%Z) in *.
  change (2 ^ 53)%Z with (2 ^ 52 * 2)%Z in H1.
  set (b := (2 ^ 52)%Z) in *.
  assert (Hb : (0 < b)%Z) by (unfold b; lia).
  assert (H3 : (b * 2 <= m2 * k)%Z) by nia.
  nia.
Qed.

(** The order of the comparisons is the order of the scaled values. *)
Lemma before_scaled (x y : B64.float) :
  valid_binary B64.prec B64.emax x = true ->
  valid_binary B64.prec B64.emax y = true ->
  finite x = true -> finite y = true ->
  before (place x) (place y) -> (scaled x < scaled y)%Z.
Proof.
  intros Vx Vy Fx Fy.
  destruct x as [sx|sx| |sx mx ex]; try discriminate;
  destruct y as [sy|sy| |sy my ey]; try discriminate;
    cbn [place scaled before].
  - lia.
  - destruct (valid_finite _ _ _ Vy) as (He & _ & _).
    assert (0 < 2 ^ (ey + 1074))%Z by (apply Z.pow_pos_nonneg; lia).
    destruct sy; cbn [before]; [lia|]. intros _. nia.
  - destruct (valid_finite _ _ _ Vx) as (He & _ & _).
    assert (0 < 2 ^ (ex + 1074))%Z by (apply Z.pow_pos_nonneg; lia).
    destruct sx; cbn [before]; [|lia]. intros _. nia.
  - destruct (valid_finite _ _ _ Vx) as (Hex & Hmx & Hfx).
    destruct (valid_finite _ _ _ Vy) as (Hey & Hmy & Hfy).
    assert (0 < 2 ^ (ex + 1074))%Z by (apply Z.pow_pos_nonneg; lia).
    assert (0 < 2 ^ (ey + 1074))%Z by (apply Z.pow_pos_nonneg; lia).
    destruct sx, sy; cbn [before]; intros Hb.
    + destruct Hb as [Hb|[_ [Hb|[Hb Hm]]]]; [lia| |].
      * assert (Zpos my * 2 ^ (ey + 1074) < Zpos mx * 2 ^ (ex + 1074))%Z
          by (apply scaled_order_arith; lia).
        lia.
      * assert (ex = ey) by lia. subst. nia.
    + nia.
    + lia.
    + destruct Hb as [Hb|[_ [Hb|[Hb Hm]]]]; [lia| |].
      * apply scaled_order_arith; lia.
      * subst. nia.
Qed.

Lemma place_scaled (x y : B64.float) :
  valid_binary B64.prec B64.emax x = true ->
  valid_binary B64.prec B64.emax y = true ->
  finite x = true -> finite y = true ->
  place x = place y -> scaled x = scaled y.
Proof.
  intros Vx Vy Fx Fy.
  destruct x as [sx|sx| |sx mx ex]; try discriminate;
  destruct y as [sy|sy| |sy my ey]; try discriminate;
    cbn [place scaled]; try reflexivity;
    try destruct sx; try destruct sy; try discriminate.
  - intros H. inversion H.
    assert (ex = ey) by lia. now subst.
  - intros H. inversion H. now subst.
Qed.

Lemma finite_number (x : B64.float) : finite x = true -> number x.
Proof. now destruct x. Qed.

Lemma Flt_scaled (x y : B64.float) :
  valid_binary B64.prec B64.emax x = true ->
  valid_binary B64.prec B64.emax y = true ->
  finite x = true -> finite y = true ->
  (Flt x y <-> (scaled x < scaled y)%Z).
Proof.
  intros Vx Vy Fx Fy. split.
  - intros H. apply flt_place in H. destruct H as (_ & _ & H).
    now apply before_scaled.
  - intros H.
    destruct (float_total x y (finite_number x Fx) (finite_number y Fy))
      as [C|[C|C]]; [assumption| |].
    + apply feq_place in C. destruct C as (_ & _ & C).
      apply place_scaled in C; auto. lia.
    + apply flt_place in C. destruct C as (_ & _ & C).
      apply before_scaled in C; auto. lia.
Qed.

Lemma Feq_scaled (x y : B64.float) :
  valid_binary B64.prec B64.emax x = true ->
  valid_binary B64.prec B64.emax y = true ->
  finite x = true -> finite y = true ->
  (Feq x y <-> scaled x = scaled y).
Proof.
  intros Vx Vy Fx Fy. split.
  - intros H. apply feq_place in H. destruct H as (_ & _ & H).
    now apply place_scaled.
  - intros H.
    destruct (float_total x y (finite_number x Fx) (finite_number y Fy))
      as [C|[C|C]]; [|assumption|].
    + apply flt_place in C. destruct C as (_ & _ & C).
      apply before_scaled in C; auto. lia.
    + apply flt_place in C. destruct C as (_ & _ & C).
      apply before_scaled in C; auto. lia.
Qed.

Lemma value_scaled (x : B64.float) :
  valid_binary B64.prec B64.emax x = true ->
  value x == inject_Z (scaled x) * 2 ^ (- 1074).
Proof.
  intros Vx. destruct x as [sx|sx| |sx mx ex]; cbn [value scaled];
    try (now rewrite Qmult_0_l).
  destruct (valid_finite _ _ _ Vx) as (He & _ & _).
  rewrite inject_Z_mult, Zpower_Qpower by lia.
  replace ex with ((ex + 1074) + - 1074)%Z at 1 by lia.
  rewrite Qpower_plus by discriminate.
  change (inject_Z 2) with 2.
  generalize (2 ^ (ex + 1074)) (2 ^ (- 1074)). intros a c.
  destruct sx.
  - change (inject_Z (Zneg mx)) with (- inject_Z (Zpos mx)). ring.
  - ring.
Qed.

Lemma represents_lt (x y : B64.float) (a b : Q) :
  represents x a -> represents y b -> (Flt x y <-> a < b).
Proof.
  intros (Vx & Fx & Hx) (Vy & Fy & Hy).
  rewrite Flt_scaled by assumption.
  rewrite <- Hx, <- Hy, !value_scaled by assumption.
  assert (Hc : 0 < 2 ^ (- 1074)) by reflexivity.
  rewrite Zlt_Qlt. split; intros H.
  - apply Qmult_lt_r; assumption.
  - eapply Qmult_lt_r; eassumption.
Qed.

Lemma represents_eq (x y : B64.float) (a b : Q) :
  represents x a -> represents y b -> (Feq x y <-> a == b).
Proof.
  intros (Vx & Fx & Hx) (Vy & Fy & Hy).
  rewrite Feq_scaled by assumption.
  rewrite <- Hx, <- Hy, !value_scaled by assumption.
  assert (Hc : ~ 2 ^ (- 1074) == 0) by discriminate.
  split; intros H.
  - now rewrite H.
  - apply Qmult_inj_r in H; [|assumption].
    now apply (proj1 (inject_Z_injective _ _)) in H.
Qed.

(** ** The constructor and the call of [UniformQuantizer] on floats *)

Lemma Fpy_div_cases (a : B64.float) (n : Z) :
  (n = 0%Z /\ B64.py_div a n = Raise ZeroDivisionError) \/
  (n <> 0%Z /\ (2 ^ 1024 - 2 ^ 970 <= Z.abs n)%Z /\
   B64.py_div a n = Raise OverflowError) \/
  (n <> 0%Z /\ (Z.abs n < 2 ^ 1024 - 2 ^ 970)%Z /\
   B64.py_div a n = Return (B64.fdiv a (B64.of_int n))).
Proof.
  unfold B64.py_div. destruct (Z.eqb_spec n 0) as [E|E]; [now left|right].
  destruct (Z.leb_spec (2 ^ 1024 - 2 ^ 970) (Z.abs n)); [left|right]; auto.
Qed.

Lemma Fderive_cases (L : Z) (p : B64.float) (ty : string) :
  (~ recognised ty /\ B64.UniformQuantizer.derive L p ty = Raise type_error) \/
  (recognised ty /\
   ((L = 0%Z /\ B64.UniformQuantizer.derive L p ty = Raise ZeroDivisionError) \/
    (L <> 0%Z /\ (2 ^ 1024 - 2 ^ 970 <= Z.abs L)%Z /\
     B64.UniformQuantizer.derive L p ty = Raise OverflowError) \/
    (L <> 0%Z /\ (Z.abs L < 2 ^ 1024 - 2 ^ 970)%Z /\
     exists dl, B64.UniformQuantizer.derive L p ty = Return dl))).
Proof.
  unfold B64.UniformQuantizer.derive, recognised, signed_mode.
  destruct (String.eqb_spec ty "unsigned") as [E1|E1].
  { right. split; [now left|].
    destruct (Fpy_div_cases p L) as [[H1 ->]|[(H1 & H2 & ->)|(H1 & H2 & ->)]];
      simpl; eauto 10. }
  destruct (String.eqb_spec ty "mid-riser") as [E2|E2].
  { right. split; [right; now left|].
    destruct (Fpy_div_cases (B64.fmul B64.two p) L)
      as [[H1 ->]|[(H1 & H2 & ->)|(H1 & H2 & ->)]]; simpl; eauto 10. }
  destruct (String.eqb_spec ty "mid-tread") as [E3|E3].
  { right. split; [right; now right|].
    destruct (Fpy_div_cases (B64.fmul B64.two p) L)
      as [[H1 ->]|[(H1 & H2 & ->)|(H1 & H2 & ->)]]; simpl; eauto 10. }
  left. split; [|reflexivity]. intros [H|[H|H]]; contradiction.
Qed.

Lemma FUniformQuantizer_init_Return (L : Z) (p : B64.float) (ty : string)
      (u : B64.UniformQuantizer.t) :
  B64.UniformQuantizer.__init__ L p ty = Return u ->
  recognised ty /\ L <> 0%Z /\
  B64.UniformQuantizer._type u = ty /\
  B64.UniformQuantizer._input_peak u = p /\
  Fconstructed (B64.UniformQuantizer.base u).
Proof.
  unfold B64.UniformQuantizer.__init__. intros H.
  destruct (Fderive_cases L p ty)
    as [[_ E]|[Hr [[_ E]|[(_ & _ & E)|(HL & _ & dl & E)]]]];
    rewrite E in H; simpl in H; try discriminate.
  destruct (B64.ScalarQuantizer.__init__ _ _) as [q| |] eqn:Hq;
    simpl in H; try discriminate.
  inversion H; subst; simpl. repeat split; auto.
  eexists. eexists. exact Hq.
Qed.

Lemma Funiform_valid (L : Z) (p : B64.float) (ty : string)
      (u : B64.UniformQuantizer.t) :
  B64.UniformQuantizer.__init__ L p ty = Return u ->
  Fvalid (Fulevels u) (Futhresholds u).
Proof.
  intros H. apply FUniformQuantizer_init_Return in H.
  now apply Fconstructed_valid.
Qed.

Lemma FUniformQuantizer_init_Raise (L : Z) (p : B64.float) (ty : string) (e : exn) :
  B64.UniformQuantizer.__init__ L p ty = Raise e ->
  (e = type_error /\ ~ recognised ty) \/
  (e = ZeroDivisionError /\ L = 0%Z) \/
  (e = OverflowError /\ (2 ^ 1024 - 2 ^ 970 <= Z.abs L)%Z) \/
  e = length_error \/ e = values_error.
Proof.
  unfold B64.UniformQuantizer.__init__. intros H.
  destruct (Fderive_cases L p ty)
    as [[Hn E]|[Hr [[HL E]|[(_ & HL & E)|(HL & _ & dl & E)]]]];
    rewrite E in H; simpl in H.
  - inversion H. auto.
  - inversion H. auto.
  - inversion H. auto.
  - destruct (B64.ScalarQuantizer.__init__ _ _) as [q|e'|] eqn:Hq;
      simpl in H; try discriminate.
    inversion H; subst. apply FScalarQuantizer_init_Raise in Hq. tauto.
Qed.

Lemma Fcall_unsigned (u : B64.UniformQuantizer.t) (a : B64.ndarray B64.float) :
  B64.UniformQuantizer._type u = "unsigned"%string ->
  B64.UniformQuantizer.__call__ u a = B64.PyInt 0.
Proof.
  unfold B64.UniformQuantizer.__call__. intros ->. reflexivity.
Qed.

Lemma Fcall_signed (u : B64.UniformQuantizer.t) (a : B64.ndarray B64.float) :
  signed_mode (B64.UniformQuantizer._type u) ->
  B64.UniformQuantizer.__call__ u a =
  B64.PyArray (B64.ndarray_map
    (Fclosed_form (B64.UniformQuantizer._type u) (Fstep u)) a).
Proof.
  unfold B64.UniformQuantizer.__call__. intros [E | E]; rewrite E; reflexivity.
Qed.

(** The search of a valid quantizer on an array of rank at most one. *)
Lemma Fcall_low_rank (q : B64.ScalarQuantizer.t) (a : B64.ndarray B64.float) :
  Fvalid (B64.ScalarQuantizer._levels q) (B64.ScalarQuantizer._thresholds q) ->
  B64.well_formed a -> (ndim a <= 1)%nat ->
  B64.ScalarQuantizer.__call__ q a =
  Return (B64.array1d (map (Flevel_of q) (B64.data a))).
Proof.
  intros Hv Hw Hr. destruct (low_rank_cases a Hw Hr) as [[x ->]|E].
  - now apply Fcall_valid_scalar.
  - rewrite E at 1. now apply Fcall_valid_1d.
Qed.

(** ** From exact arithmetic to floats *)

Lemma fgt_represents (x t : B64.float) (x' t' : Q) :
  represents x x' -> represents t t' -> B64.fgt x t = Qgt_bool x' t'.
Proof.
  intros Hx Ht. destruct (Qgt_bool x' t') eqn:E.
  - apply Qgt_bool_iff in E. apply (represents_lt t x t' x'); assumption.
  - apply Qgt_bool_false_iff in E.
    destruct (B64.fgt x t) eqn:F; [|reflexivity].
    apply (represents_lt t x t' x') in F; try assumption. lra.
Qed.

Lemma Fcount_exceeded_represents (x : B64.float) (x' : Q)
      (ts : list B64.float) (ts' : list Q) :
  represents x x' -> Forall2 represents ts ts' ->
  Fcount_exceeded x ts = count_exceeded x' ts'.
Proof.
  intros Hx. induction 1 as [|t t' ts ts' Ht _ IH]; [reflexivity|].
  rewrite Fcount_exceeded_cons, count_exceeded_cons, IH.
  now rewrite (fgt_represents x t x' t').
Qed.

Lemma nth_represents (ls : list B64.float) (ls' : list Q) (i : nat) :
  Forall2 represents ls ls' -> (i < length ls')%nat ->
  represents (nth i ls S754_nan) (nth i ls' 0).
Proof.
  intros H. revert i. induction H as [|v v' ls ls' Hv _ IH]; intros i Hi;
    [simpl in Hi; lia|].
  destruct i as [|i]; [exact Hv|]. simpl. apply IH. simpl in Hi. lia.
Qed.

Lemma closed_form_comp (ty : string) (d x y : Q) :
  x == y -> closed_form ty d x == closed_form ty d y.
Proof.
  intros E. unfold closed_form, mid_riser_value, mid_tread_value.
  destruct (_ =? _)%string; now rewrite E.
Qed.

Lemma closed_form_idempotent (ty : string) (d x : Q) :
  closed_form ty d (closed_form ty d x) == closed_form ty d x.
Proof.
  destruct (Qeq_dec d 0) as [E|E].
  - assert (Hz : forall y, closed_form ty d y == 0).
    { intros y. unfold closed_form, mid_riser_value, mid_tread_value.
      destruct (_ =? _)%string.
      - generalize (inject_Z (Qfloor (y / d + (1#2)))). intros z.
        rewrite E. ring.
      - generalize (inject_Z (Qfloor (y / d)) + (1#2)). intros z.
        rewrite E. ring. }
    now rewrite !Hz.
  - unfold closed_form. destruct (_ =? _)%string.
    + now apply mid_riser_value_idempotent.
    + now apply mid_tread_value_idempotent.
Qed.

Lemma Forall2_map_Feq (f g : B64.float -> B64.float) (xs : list B64.float) :
  Forall (fun x => Feq (f x) (g x)) xs -> Forall2 Feq (map f xs) (map g xs).
Proof.
  induction 1; simpl; constructor; assumption.
Qed.

Lemma closed_form_comp_step (ty : string) (d d' x : Q) :
  d == d' -> closed_form ty d x == closed_form ty d' x.
Proof.
  intros E. unfold closed_form, mid_riser_value, mid_tread_value.
  destruct (_ =? _)%string.
  - assert (F : Qfloor (x / d + (1#2)) = Qfloor (x / d' + (1#2)))
      by (apply Qfloor_comp; now rewrite E).
    now rewrite F, E.
  - assert (F : Qfloor (x / d) = Qfloor (x / d'))
      by (apply Qfloor_comp; now rewrite E).
    now rewrite F, E.
Qed.

Lemma Forall2_In_r {A B : Type} (R : A -> B -> Prop) (l : list A) (l' : list B)
      (y : B) :
  Forall2 R l l' -> In y l' -> exists x, In x l /\ R x y.
Proof.
  induction 1 as [|a b l l' Hab _ IH]; intros Hy; [destruct Hy|].
  destruct Hy as [<-|Hy].
  - exists a. split; [now left|assumption].
  - destruct (IH Hy) as (x & Hx & Hr). exists x. split; [now right|assumption].
Qed.

(** ** The rank of the result of the search *)

Lemma tile_shape_length (s : list nat) (reps : nat) :
  length (B64.tile_shape s reps) = length s.
Proof.
  induction s as [|n s IH]; [reflexivity|].
  destruct s as [|m [|k s]]; [reflexivity|reflexivity|].
  change (B64.tile_shape (n :: m :: k :: s) reps)
    with (n :: B64.tile_shape (m :: k :: s) reps).
  cbn [length] in *. now rewrite IH.
Qed.

Lemma atleast_2d_length (s : list nat) :
  length (B64.atleast_2d s) = Nat.max 2 (length s).
Proof.
  destruct s as [|n [|m s]]; reflexivity.
Qed.

Lemma tile_transpose_ndim {A : Type} (a : B64.ndarray A) (reps : nat) :
  ndim (B64.np_transpose (B64.np_tile a reps)) = Nat.max 2 (ndim a).
Proof.
  unfold ndim, B64.np_transpose, B64.np_tile. cbn [B64.shape].
  now rewrite length_rev, tile_shape_length, atleast_2d_length.
Qed.

Lemma np_greater_ndim (a : B64.ndarray B64.float) (ts : list B64.float)
      (b : B64.ndarray bool) :
  (1 <= ndim a)%nat -> B64.np_greater a ts = Return b -> ndim b = ndim a.
Proof.
  unfold B64.np_greater, ndim. intros Hr.
  destruct (_ =? _)%nat; [intros H; now inversion H|].
  destruct (_ =? _)%nat; [intros H; now inversion H|].
  destruct (_ =? _)%nat; [|discriminate].
  intros H. inversion H. cbn [B64.shape].
  rewrite length_app, removelast_firstn_len, length_firstn. simpl. lia.
Qed.

Lemma np_sum_axis1_ndim (a : B64.ndarray bool) (b : B64.ndarray nat) :
  B64.np_sum_axis1 a = Return b -> ndim b = (ndim a - 1)%nat.
Proof.
  unfold B64.np_sum_axis1, ndim.
  destruct (B64.shape a) as [|s0 [|s1 rest]]; try discriminate.
  intros H. inversion H. cbn [B64.shape length]. lia.
Qed.

Lemma np_take_shape {A : Type} (ls : list A) (idx : B64.ndarray nat)
      (b : B64.ndarray A) :
  B64.np_take ls idx = Return b -> B64.shape b = B64.shape idx.
Proof.
  unfold B64.np_take. destruct (B64.take ls (B64.data idx)); try discriminate.
  intros H. now inversion H.
Qed.

(** Whatever the search returns has the rank of the input less one, once
    the input has two axes or more. *)
Lemma Fcall_ndim (q : B64.ScalarQuantizer.t) (a b : B64.ndarray B64.float) :
  (2 <= ndim a)%nat ->
  B64.ScalarQuantizer.__call__ q a = Return b ->
  ndim b = (ndim a - 1)%nat.
Proof.
  unfold B64.ScalarQuantizer.__call__. intros Hr H.
  apply bind_Return in H. destruct H as (e & He & H).
  apply bind_Return in H. destruct H as (c & Hc & H).
  apply np_greater_ndim in He;
    [|rewrite tile_transpose_ndim; lia].
  rewrite tile_transpose_ndim in He.
  apply np_sum_axis1_ndim in Hc. apply np_take_shape in H.
  unfold ndim in *. rewrite H. lia.
Qed.

(** A 2-d input of two rows or more cannot be compared with two
    thresholds or more. *)
Lemma Fcall_2d_raises (q : B64.ScalarQuantizer.t) (rows cols : nat)
      (d : list B64.float) :
  (2 <= rows)%nat ->
  (2 <= length (B64.ScalarQuantizer._thresholds q))%nat ->
  B64.ScalarQuantizer.__call__ q (B64.Build_ndarray [rows; cols] d) =
  Raise (ValueError "operands could not be broadcast together").
Proof.
  intros Hrows Ht. unfold B64.ScalarQuantizer.__call__.
  unfold B64.np_greater, B64.np_transpose, B64.np_tile.
  cbn [B64.shape B64.atleast_2d B64.tile_shape rev app last].
  set (t := length (B64.ScalarQuantizer._thresholds q)) in *.
  assert (E1 : (rows * t =? t)%nat = false) by (apply Nat.eqb_neq; nia).
  assert (E2 : (t =? 1)%nat = false) by (apply Nat.eqb_neq; lia).
  assert (E3 : (rows * t =? 1)%nat = false) by (apply Nat.eqb_neq; nia).
  now rewrite E1, E2, E3.
Qed.

(** * The claims *)

(** ** C1: the unsigned mode *)

(** C1.  The claim: in unsigned mode the call returns what the threshold
    search over the quantizer's own levels and thresholds returns.  The
    source returns the constant [0] there.  At
    [UniformQuantizer(4, 1.0, 'unsigned')] and the input [[0.5]] the call
    returns the integer [0]; the threshold search returns [[0.5]]. *)
Theorem unsigned_call_is_constant_zero :
  UniformQuantizer.__init__ 4 1 "unsigned" = Return unsigned4 /\
  UniformQuantizer.__call__ unsigned4 (Array1 [1#2]) = PyInt 0 /\
  exists y, generic_call unsigned4 (Array1 [1#2]) = Return (Array1 [y]) /\
            y == 1#2.
Proof.
  split; [reflexivity|]. split; [reflexivity|].
  eexists. split; [reflexivity|]. reflexivity.
Qed.

(** ** C2: the closed forms against the threshold search *)




(** ** C3: the cell of an input *)

(** What the search does, for reference: the level [v_i] it returns is the
    one with [t_i < x <= t_(i+1)], the cells being closed on the right. *)
Lemma search_cell (q : ScalarQuantizer.t) (x : Q) :
  constructed q ->
  exists i,
    (i < length (ScalarQuantizer._levels q))%nat /\
    ScalarQuantizer.__call__ q (Scalar x) =
      Return (Array1 [nth i (ScalarQuantizer._levels q) 0]) /\
    (forall j, (j < i)%nat -> nth j (ScalarQuantizer._thresholds q) 0 < x) /\
    (forall j, (i <= j < length (ScalarQuantizer._thresholds q))%nat ->
               x <= nth j (ScalarQuantizer._thresholds q) 0).
Proof.
  intros Hc. apply constructed_valid in Hc.
  exists (count_exceeded x (ScalarQuantizer._thresholds q)).
  split; [now apply level_of_index|].
  split; [now rewrite ScalarQuantizer_call_elementwise|].
  apply count_exceeded_spec. eapply valid_thresholds_increasing, Hc.
Qed.

(** C3.  The claim: the level returned is the [v_i] with
    [t_i <= x < t_(i+1)], so that an input equal to a threshold goes to the
    higher level: for levels [[-1, 0, 1]] and thresholds [[-0.5, 0.8]],
    [-0.5] goes to [0] and [0.8] to [1].  The source counts the thresholds
    that the input strictly exceeds: on the inputs
    [[-0.5, 0.8, -0.51, 0.79]] it returns [[-1, 0, -1, 0]], the lower level
    at both thresholds. *)
Theorem threshold_input_gets_lower_level :
  ScalarQuantizer.__init__ [-1; 0; 1] [-(1#2); 8#10] = Return docstring_quantizer /\
  ScalarQuantizer.__call__ docstring_quantizer
    (Array1 [-(1#2); 8#10; -(51#100); 79#100])
  = Return (Array1 [-1; 0; -1; 0]).
Proof.
  split; reflexivity.
Qed.

(** ** C4: the constructor of [ScalarQuantizer] *)

(** C4.  The constructor raises [ValueError] (the specification's
    [ConfigurationError]) exactly when [thresholds] is not one shorter
    than [levels] or the interleaved sequence is not strictly increasing;
    otherwise it returns, and the object holds the two sequences as
    given. *)
Theorem ScalarQuantizer_init_spec (levels thresholds : list Q) :
  ((exists msg, ScalarQuantizer.__init__ levels thresholds
                = Raise (ValueError msg)) <->
   (Z.of_nat (length thresholds) <> (Z.of_nat (length levels) - 1)%Z \/
    ~ strictly_increasing (interleave levels thresholds))) /\
  (Z.of_nat (length thresholds) = (Z.of_nat (length levels) - 1)%Z ->
   strictly_increasing (interleave levels thresholds) ->
   exists q, ScalarQuantizer.__init__ levels thresholds = Return q /\
             ScalarQuantizer._levels q = levels /\
             ScalarQuantizer._thresholds q = thresholds /\
             ScalarQuantizer._num_levels q = Z.of_nat (length levels)).
Proof.
  split.
  - unfold ScalarQuantizer.__init__.
    destruct (Z.eqb_spec (Z.of_nat (length thresholds))
                         (Z.of_nat (length levels) - 1)) as [E|E]; simpl.
    + destruct (np_array_equal _ _) eqn:U; simpl.
      * apply unique_fixpoint in U. split.
        -- intros [msg Hm]. discriminate.
        -- intros [Hl|Hs]; contradiction.
      * split.
        -- intros _. right. intros Hs. apply unique_fixpoint in Hs. congruence.
        -- intros _. eexists. reflexivity.
    + split.
      * intros _. now left.
      * intros _. eexists. reflexivity.
  - intros Hlen Hs. eexists. split.
    + apply ScalarQuantizer_init_valid. now split.
    + simpl. auto.
Qed.

Lemma ScalarQuantizer_init_spec_witness :
  exists q, ScalarQuantizer.__init__ [-1; 0; 1] [-(1#2); 8#10] = Return q /\
            ScalarQuantizer._levels q = [-1; 0; 1] /\
            ScalarQuantizer._thresholds q = [-(1#2); 8#10] /\
            ScalarQuantizer._num_levels q = 3%Z.
Proof.
  apply (proj2 (ScalarQuantizer_init_spec [-1; 0; 1] [-(1#2); 8#10])).
  - reflexivity.
  - apply unique_fixpoint. reflexivity.
Defined.

(** ** C5: the derived parameters of [UniformQuantizer] *)

(** C5.  For every quantizer the constructor returns: in unsigned mode the
    step is [p/L] and the levels are [p*i/L], [i = 0 .. L-1]; in mid-riser
    mode the step is [2p/L] and the levels are [p*k/(L//2)],
    [k = -L//2 .. L//2-1]; in mid-tread mode the same levels, each plus
    half a step; the thresholds are [levels[i] + step/2], [i = 0 .. L-2].
    The divisions by two are the floor divisions of the source, which are
    exact for an even [L].  For [num_levels=8], [input_peak=1.0] in
    mid-riser mode the levels are [-1, -0.75, ..., 0.75] and the
    thresholds [-0.875, -0.625, ..., 0.625]. *)
Theorem UniformQuantizer_derived_parameters :
  (forall (L : Z) (p : Q) (ty : string) (u : UniformQuantizer.t),
     UniformQuantizer.__init__ L p ty = Return u ->
     let delta := UniformQuantizer._quantization_step u in
     (1 <= L)%Z /\
     length (ulevels u) = Z.to_nat L /\
     length (uthresholds u) = (Z.to_nat L - 1)%nat /\
     (ty = "unsigned"%string ->
        delta == p / inject_Z L /\
        forall i, (i < Z.to_nat L)%nat ->
          nth i (ulevels u) 0 == p * inject_Z (Z.of_nat i) / inject_Z L) /\
     (ty = "mid-riser"%string ->
        delta == 2 * p / inject_Z L /\
        forall i, (i < Z.to_nat L)%nat ->
          nth i (ulevels u) 0 ==
          p * inject_Z (- L / 2 + Z.of_nat i) / inject_Z (L / 2)) /\
     (ty = "mid-tread"%string ->
        delta == 2 * p / inject_Z L /\
        forall i, (i < Z.to_nat L)%nat ->
          nth i (ulevels u) 0 ==
          p * inject_Z (- L / 2 + Z.of_nat i) / inject_Z (L / 2) + delta / 2) /\
     (forall i, (i < Z.to_nat L - 1)%nat ->
        nth i (uthresholds u) 0 == nth i (ulevels u) 0 + delta / 2) /\
     (- L / 2 + (L - 1) = L / 2 - 1)%Z /\
     (Z.even L = true ->
        (- L / 2 = - (L / 2))%Z /\ inject_Z (L / 2) == inject_Z L / 2)) /\
  (UniformQuantizer.__init__ 8 1 "mid-riser" = Return mid_riser8 /\
   Forall2 Qeq (ulevels mid_riser8)
     [-1; -(3#4); -(1#2); -(1#4); 0; 1#4; 1#2; 3#4] /\
   Forall2 Qeq (uthresholds mid_riser8)
     [-(7#8); -(5#8); -(3#8); -(1#8); 1#8; 3#8; 5#8]).
Proof.
  split.
  - intros L p ty u H. cbv zeta.
    assert (Hcommon :
      (1 <= L)%Z /\ length (ulevels u) = Z.to_nat L /\
      uthresholds u =
        derived_thresholds (UniformQuantizer._quantization_step u) (ulevels u)).
    { pose proof H as H'. apply UniformQuantizer_init_Return in H'.
      destruct H' as (delta & ls & Hd & _ & _).
      destruct (derive_mode _ _ _ _ Hd) as [-> | Hs].
      - destruct (unsigned_init L p u H) as (HL & Hd' & _ & _ & Hls & Hts).
        rewrite Hd', Hls at 1. rewrite unsigned_levels_length. auto.
      - destruct (signed_init L p ty u H Hs)
          as (HL & _ & Hd' & _ & _ & Hlen & Hts & _).
        rewrite Hd'. split; [lia|]. auto. }
    destruct Hcommon as (HL & Hlen & Hts).
    split; [assumption|]. split; [assumption|].
    split; [rewrite Hts, derived_thresholds_length, Hlen; lia|].
    split; [|split; [|split; [|split; [|split]]]].
    + intros ->.
      destruct (unsigned_init L p u H) as (_ & Hd' & _ & _ & Hls & _).
      rewrite Hd'. split; [reflexivity|].
      intros i Hi. rewrite Hls, unsigned_levels_nth by assumption. reflexivity.
    + intros ->.
      destruct (signed_init L p "mid-riser" u H (or_introl eq_refl))
        as (_ & _ & Hd' & _ & _ & _ & _ & Hnth).
      rewrite Hd'. split; [reflexivity|].
      intros i Hi. rewrite (Hnth i Hi), signed_levels_nth by lia.
      unfold offset. simpl. ring.
    + intros ->.
      destruct (signed_init L p "mid-tread" u H (or_intror eq_refl))
        as (_ & _ & Hd' & _ & _ & _ & _ & Hnth).
      rewrite Hd'. split; [reflexivity|].
      intros i Hi. rewrite (Hnth i Hi), signed_levels_nth by lia.
      unfold offset. simpl. reflexivity.
    + intros i Hi. rewrite Hts at 1.
      rewrite derived_thresholds_nth by lia. reflexivity.
    + Z.div_mod_to_equations. lia.
    + intros Hev. destruct (even_half L Hev) as [HLm Hneg].
      split; [assumption|].
      rewrite HLm at 2. rewrite inject_Z_mult. field.
  - split; [reflexivity|]. split; repeat constructor.
Qed.

Lemma UniformQuantizer_derived_parameters_witness :
  (1 <= 4)%Z /\ length (ulevels mid_tread4) = 4%nat /\
  length (uthresholds mid_tread4) = 3%nat.
Proof.
  destruct (proj1 UniformQuantizer_derived_parameters 4%Z 1 "mid-tread"%string
              mid_tread4 eq_refl) as (H1 & H2 & H3 & _).
  exact (conj H1 (conj H2 H3)).
Defined.

(** ** C6: monotonicity *)

(** C6.  Quantization is monotone: for a constructed [ScalarQuantizer],
    and for a constructed [UniformQuantizer] in each of its modes,
    [x1 <= x2] gives [quantize(x1) <= quantize(x2)]. *)
Theorem quantize_monotone :
  (forall (q : ScalarQuantizer.t) (x1 x2 : Q),
     constructed q -> x1 <= x2 ->
     exists y1 y2,
       ScalarQuantizer.__call__ q (Scalar x1) = Return (Array1 [y1]) /\
       ScalarQuantizer.__call__ q (Scalar x2) = Return (Array1 [y2]) /\
       y1 <= y2) /\
  (forall (L : Z) (p : Q) (ty : string) (u : UniformQuantizer.t) (x1 x2 : Q),
     UniformQuantizer.__init__ L p ty = Return u -> x1 <= x2 ->
     exists y1 y2,
       py_number (UniformQuantizer.__call__ u (Scalar x1)) = Some y1 /\
       py_number (UniformQuantizer.__call__ u (Scalar x2)) = Some y2 /\
       y1 <= y2).
Proof.
  split.
  - intros q x1 x2 Hc Hle. apply constructed_valid in Hc.
    exists (level_of q x1), (level_of q x2).
    rewrite !ScalarQuantizer_call_elementwise by assumption.
    repeat split. now apply level_of_mono.
  - intros L p ty u x1 x2 H Hle.
    destruct (uniform_constructed_cases L p ty u H) as [_ [Hu | [Hs Hd]]].
    + rewrite !UniformQuantizer_call_unsigned by assumption.
      exists 0, 0. repeat split. apply Qle_refl.
    + rewrite !UniformQuantizer_call_signed by assumption.
      eexists. eexists. split; [reflexivity|]. split; [reflexivity|].
      destruct (_ =? _)%string.
      * now apply mid_riser_value_mono.
      * now apply mid_tread_value_mono.
Qed.

Lemma quantize_monotone_witness :
  exists y1 y2,
    py_number (UniformQuantizer.__call__ mid_riser4 (Scalar (1#10))) = Some y1 /\
    py_number (UniformQuantizer.__call__ mid_riser4 (Scalar (3#10))) = Some y2 /\
    y1 <= y2.
Proof.
  apply (proj2 quantize_monotone 4%Z 1 "mid-riser"%string mid_riser4).
  - reflexivity.
  - vm_compute. discriminate.
Defined.

(** ** C7: idempotence *)




(** ** C8: the errors *)

(** C8, as the source has it, on binary64 floats.  The constructor of
    [UniformQuantizer] raises [ValueError] (the specification's
    [ConfigurationError]) when the mode is none of the three.  For a
    [num_levels] other than zero that fits a 64-bit integer, that error
    and the two of the constructor of [ScalarQuantizer] are the only ones
    it raises, whatever float [input_peak] is; [num_levels = 0] with a
    recognised mode raises [ZeroDivisionError].  A constructed quantizer
    raises nothing when it is called: its own call returns the integer
    [0] or an array of the shape of the input, for an input of any shape
    holding any floats, the infinities and nan among them; the threshold
    search returns an array for every scalar and every 1-d array of such
    floats. *)
Theorem UniformQuantizer_error_conditions :
  (forall (L : Z) (p : B64.float) (ty : string),
     ty <> "unsigned"%string -> ty <> "mid-riser"%string ->
     ty <> "mid-tread"%string ->
     B64.UniformQuantizer.__init__ L p ty = Raise type_error) /\
  (forall (L : Z) (p : B64.float) (ty : string) (e : exn),
     L <> 0%Z -> int64 L ->
     B64.UniformQuantizer.__init__ L p ty = Raise e ->
     e = type_error \/ e = length_error \/ e = values_error) /\
  (forall (p : B64.float) (ty : string),
     recognised ty ->
     B64.UniformQuantizer.__init__ 0 p ty = Raise ZeroDivisionError) /\
  (forall (L : Z) (p : B64.float) (ty : string) (u : B64.UniformQuantizer.t)
          (a : B64.ndarray B64.float),
     int64 L ->
     B64.UniformQuantizer.__init__ L p ty = Return u ->
     (B64.UniformQuantizer.__call__ u a = B64.PyInt 0 \/
      exists b, B64.UniformQuantizer.__call__ u a = B64.PyArray b /\
                B64.shape b = B64.shape a) /\
     (B64.well_formed a -> (ndim a <= 1)%nat ->
      exists b, B64.generic_call u a = Return b)) /\
  (forall (q : B64.ScalarQuantizer.t) (a : B64.ndarray B64.float),
     Fconstructed q -> B64.well_formed a -> (ndim a <= 1)%nat ->
     exists b, B64.ScalarQuantizer.__call__ q a = Return b).
Proof.
  split; [|split; [|split; [|split]]].
  - intros L p ty H1 H2 H3.
    unfold B64.UniformQuantizer.__init__, B64.UniformQuantizer.derive.
    apply String.eqb_neq in H1, H2, H3. rewrite H1, H2, H3. reflexivity.
  - intros L p ty e HL [Hlo Hhi] H.
    apply FUniformQuantizer_init_Raise in H.
    destruct H as [[-> _]|[[_ H]|[[_ H]|[->| ->]]]]; auto.
    + contradiction.
    + exfalso.
      assert (Hb : (2 ^ 63 < 2 ^ 1024 - 2 ^ 970)%Z) by reflexivity.
      lia.
  - intros p ty [-> | [-> | ->]]; reflexivity.
  - intros L p ty u a _ H.
    destruct (FUniformQuantizer_init_Return L p ty u H)
      as ([->|Hs] & _ & Ht & _ & Hc).
    + split.
      * left. now apply Fcall_unsigned.
      * intros Hw Hr. eexists. unfold B64.generic_call.
        apply Fcall_low_rank; auto. now apply Fconstructed_valid.
    + split.
      * right. eexists. split; [apply Fcall_signed; now rewrite Ht|].
        reflexivity.
      * intros Hw Hr. eexists. unfold B64.generic_call.
        apply Fcall_low_rank; auto. now apply Fconstructed_valid.
  - intros q a Hc Hw Hr. apply Fconstructed_valid in Hc.
    eexists. now apply Fcall_low_rank.
Qed.

Lemma UniformQuantizer_error_conditions_witness :
  values_error = type_error \/ values_error = length_error \/
  values_error = values_error.
Proof.
  apply (proj1 (proj2 UniformQuantizer_error_conditions)
               4%Z (B64.binary64 1 1023) "mid-riser"%string values_error).
  - discriminate.
  - split; [vm_compute; discriminate|reflexivity].
  - reflexivity.
Defined.

(** C8, as the claim states it, fails: with [num_levels = 0] the
    constructor divides by zero before any validation, and the error is a
    [ZeroDivisionError], none of the three [ValueError]s.  (A
    [num_levels] too large for a float, such as [10**400], raises
    [OverflowError] at the same division.) *)
Lemma zero_levels_raise_ZeroDivisionError :
  B64.UniformQuantizer.__init__ 0 one "mid-riser" = Raise ZeroDivisionError /\
  B64.UniformQuantizer.__init__ 0 one "unsigned" = Raise ZeroDivisionError /\
  ZeroDivisionError <> type_error /\
  ZeroDivisionError <> length_error /\
  ZeroDivisionError <> values_error /\
  B64.UniformQuantizer.__init__ (10 ^ 400) one "mid-riser" = Raise OverflowError.
Proof.
  repeat split; try reflexivity; discriminate.
Qed.

(** ** C9: shapes *)

(** C9, as the source has it, on arrays of floats of any shape.  The
    threshold search works element by element on a 1-d array and returns
    a 1-d array of the same length; a scalar it turns into a 1-d array of
    one element; on an array of two axes or more, whatever it returns has
    one axis less.  The closed forms of the mid-riser and mid-tread modes
    work element by element and keep the shape, of a scalar and of an
    array of any rank. *)
Theorem quantize_shapes :
  (forall (q : B64.ScalarQuantizer.t),
     Fconstructed q ->
     exists f : B64.float -> B64.float,
       (forall xs, B64.ScalarQuantizer.__call__ q (B64.array1d xs)
                   = Return (B64.array1d (map f xs))) /\
       (forall x, B64.ScalarQuantizer.__call__ q (B64.scalar x)
                  = Return (B64.array1d [f x]))) /\
  (forall (q : B64.ScalarQuantizer.t) (a b : B64.ndarray B64.float),
     (2 <= ndim a)%nat ->
     B64.ScalarQuantizer.__call__ q a = Return b ->
     ndim b = (ndim a - 1)%nat) /\
  (forall (L : Z) (p : B64.float) (ty : string) (u : B64.UniformQuantizer.t),
     int64 L ->
     B64.UniformQuantizer.__init__ L p ty = Return u ->
     signed_mode ty ->
     exists f : B64.float -> B64.float,
       forall a, exists b,
         B64.UniformQuantizer.__call__ u a = B64.PyArray b /\
         B64.shape b = B64.shape a /\
         B64.data b = map f (B64.data a)).
Proof.
  split; [|split].
  - intros q Hc. apply Fconstructed_valid in Hc.
    exists (Flevel_of q). split; intros.
    + now apply Fcall_valid_1d.
    + now apply Fcall_valid_scalar.
  - intros q a b. apply Fcall_ndim.
  - intros L p ty u _ H Hty.
    destruct (FUniformQuantizer_init_Return L p ty u H) as (_ & _ & Ht & _).
    eexists. intros a. eexists. split; [|split].
    + apply Fcall_signed. now rewrite Ht.
    + reflexivity.
    + reflexivity.
Qed.

Lemma quantize_shapes_witness :
  exists f : B64.float -> B64.float,
    forall a, exists b,
      B64.UniformQuantizer.__call__ Fmid_riser4 a = B64.PyArray b /\
      B64.shape b = B64.shape a /\
      B64.data b = map f (B64.data a).
Proof.
  apply (proj2 (proj2 quantize_shapes) 4%Z one "mid-riser"%string Fmid_riser4).
  - split; [vm_compute; discriminate|reflexivity].
  - reflexivity.
  - left. reflexivity.
Defined.

(** C9, as the claim states it, fails.  The threshold search turns a
    scalar into a 1-d array of one element: for the quantizer with levels
    [[-1, 0, 1]] and thresholds [[-0.5, 0.8]] the scalar [0.3] gives the
    array [[0.]], of shape [(1,)].  It does not keep the shape of a 2-d
    array: the input [[[-2., 0., 2.]]], of shape [(1, 3)], gives
    [[-1., 0., 1.]], of shape [(3,)], and on
    [[[0., 1., 2.], [3., 4., 5.]]], of shape [(2, 3)], the comparison
    with the two thresholds raises [ValueError].  In unsigned mode the
    call of a [UniformQuantizer] returns the integer [0] for an array. *)
Lemma scalar_input_yields_array :
  B64.ScalarQuantizer.__init__
    [B64.of_int (-1); B64.of_int 0; B64.of_int 1]
    [B64.decimal (-5) 10; B64.decimal 8 10] = Return Fdocstring_quantizer /\
  B64.ScalarQuantizer.__call__ Fdocstring_quantizer (B64.scalar (B64.decimal 3 10))
    = Return (B64.Build_ndarray [1%nat] [B64.of_int 0]) /\
  B64.shape (B64.scalar (B64.decimal 3 10)) = [] /\
  B64.ScalarQuantizer.__call__ Fdocstring_quantizer
    (B64.Build_ndarray [1; 3]%nat [B64.of_int (-2); B64.of_int 0; B64.of_int 2])
    = Return (B64.Build_ndarray [3%nat]
                [B64.of_int (-1); B64.of_int 0; B64.of_int 1]) /\
  B64.ScalarQuantizer.__call__ Fdocstring_quantizer
    (B64.Build_ndarray [2; 3]%nat
       [B64.of_int 0; B64.of_int 1; B64.of_int 2;
        B64.of_int 3; B64.of_int 4; B64.of_int 5])
    = Raise (ValueError "operands could not be broadcast together") /\
  B64.UniformQuantizer.__init__ 4 one "unsigned" = Return Funsigned4 /\
  B64.UniformQuantizer.__call__ Funsigned4 (B64.array1d [B64.half; B64.half])
    = B64.PyInt 0.
Proof.
  repeat split; reflexivity.
Qed.

(** ** C10: the closed forms do not clamp *)




(** * Further properties of the module *)

(** ** The threshold search, cell by cell *)

Lemma increasing_nth_inj (l : list Q) (i j : nat) :
  strictly_increasing l -> (i < length l)%nat -> (j < length l)%nat ->
  nth i l 0 = nth j l 0 -> i = j.
Proof.
  intros Hs Hi Hj E.
  destruct (Nat.lt_trichotomy i j) as [Hlt|[He|Hgt]]; [|assumption|].
  - pose proof (increasing_nth_lt l i j Hs ltac:(lia)) as H.
    rewrite E in H. now apply Qlt_irrefl in H.
  - pose proof (increasing_nth_lt l j i Hs ltac:(lia)) as H.
    rewrite E in H. now apply Qlt_irrefl in H.
Qed.

Lemma count_exceeded_all (x : Q) (ts : list Q) :
  Forall (fun t => t < x) ts -> count_exceeded x ts = length ts.
Proof.
  induction 1 as [|t ts Ht Hall IH]; [reflexivity|].
  rewrite count_exceeded_cons.
  apply Qgt_bool_iff in Ht. rewrite Ht. simpl. now rewrite IH.
Qed.

Lemma nth_length_last (l : list Q) (n : nat) :
  length l = S n -> nth n l 0 = last l 0.
Proof.
  revert n. induction l as [|x l IH]; intros n Hn; [discriminate|].
  destruct l as [|y l].
  - simpl in Hn. assert (n = 0%nat) by lia. subst. reflexivity.
  - destruct n as [|n]; [simpl in Hn; lia|].
    change (last (x :: y :: l) 0) with (last (y :: l) 0).
    simpl nth. apply IH. simpl in *. lia.
Qed.

(** X1.  The search returns the level of index [i] exactly for the inputs
    of the cell [t_i < x <= t_(i+1)]: above the first [i] stored
    thresholds and not above the others. *)
Theorem search_returns_level_iff (q : ScalarQuantizer.t) (x : Q) (i : nat) :
  constructed q ->
  (i < length (ScalarQuantizer.levels q))%nat ->
  (ScalarQuantizer.__call__ q (Scalar x)
     = Return (Array1 [nth i (ScalarQuantizer.levels q) 0]) <->
   (forall j, (j < i)%nat -> nth j (ScalarQuantizer.thresholds q) 0 < x) /\
   (forall j, (i <= j < length (ScalarQuantizer.thresholds q))%nat ->
      x <= nth j (ScalarQuantizer.thresholds q) 0)).
Proof.
  unfold ScalarQuantizer.levels, ScalarQuantizer.thresholds.
  intros Hc Hi. apply constructed_valid in Hc.
  rewrite ScalarQuantizer_call_elementwise by assumption. simpl.
  split.
  - intros E. inversion E as [E']. unfold level_of in E'.
    apply increasing_nth_inj in E';
      [|eapply valid_levels_increasing, Hc|now apply level_of_index|assumption].
    rewrite <- E'. apply count_exceeded_spec.
    eapply valid_thresholds_increasing, Hc.
  - intros [Hlo Hhi]. unfold level_of.
    rewrite (count_exceeded_unique x _ i); [reflexivity| |assumption|assumption].
    rewrite (valid_lengths _ _ Hc) in Hi. lia.
Qed.

Lemma search_returns_level_iff_witness :
  ScalarQuantizer.__call__ docstring_quantizer (Scalar (1#2))
    = Return (Array1 [nth 1 (ScalarQuantizer.levels docstring_quantizer) 0]) <->
  (forall j, (j < 1)%nat ->
     nth j (ScalarQuantizer.thresholds docstring_quantizer) 0 < 1#2) /\
  (forall j, (1 <= j < length (ScalarQuantizer.thresholds docstring_quantizer))%nat ->
     1#2 <= nth j (ScalarQuantizer.thresholds docstring_quantizer) 0).
Proof.
  apply (search_returns_level_iff docstring_quantizer (1#2) 1).
  - exists [-1; 0; 1], [-(1#2); 8#10]. reflexivity.
  - simpl. lia.
Defined.

(** X2.  The search saturates: an input not above any stored threshold
    gets the first level, an input above all of them the last level.  With
    a single level and no threshold every input gets that level. *)
Theorem search_saturates (q : ScalarQuantizer.t) (x : Q) :
  constructed q ->
  (Forall (fun t => x <= t) (ScalarQuantizer.thresholds q) ->
   ScalarQuantizer.__call__ q (Scalar x)
     = Return (Array1 [nth 0 (ScalarQuantizer.levels q) 0])) /\
  (Forall (fun t => t < x) (ScalarQuantizer.thresholds q) ->
   ScalarQuantizer.__call__ q (Scalar x)
     = Return (Array1 [last (ScalarQuantizer.levels q) 0])).
Proof.
  unfold ScalarQuantizer.levels, ScalarQuantizer.thresholds.
  intros Hc. apply constructed_valid in Hc.
  rewrite ScalarQuantizer_call_elementwise by assumption. simpl.
  unfold level_of. split; intros H.
  - now rewrite count_exceeded_none.
  - rewrite count_exceeded_all by assumption.
    rewrite (nth_length_last _ _ (valid_lengths _ _ Hc)). reflexivity.
Qed.

Lemma search_saturates_witness :
  ScalarQuantizer.__call__ docstring_quantizer (Scalar 7)
    = Return (Array1 [last (ScalarQuantizer.levels docstring_quantizer) 0]).
Proof.
  assert (Hc : constructed docstring_quantizer)
    by (exists [-1; 0; 1], [-(1#2); 8#10]; reflexivity).
  apply (proj2 (search_saturates docstring_quantizer 7 Hc)).
  repeat constructor.
Defined.

(** X3.  What the constructor guarantees of the object it returns:
    [num_levels] is the number of levels, at least one and one more than
    the number of thresholds; levels and thresholds are each strictly
    increasing; and every stored threshold lies strictly between the two
    levels around it. *)
Theorem constructed_invariants (q : ScalarQuantizer.t) :
  constructed q ->
  ScalarQuantizer.num_levels q = Z.of_nat (length (ScalarQuantizer.levels q)) /\
  (1 <= ScalarQuantizer.num_levels q)%Z /\
  length (ScalarQuantizer.levels q) = S (length (ScalarQuantizer.thresholds q)) /\
  strictly_increasing (ScalarQuantizer.levels q) /\
  strictly_increasing (ScalarQuantizer.thresholds q) /\
  (forall i, (i < length (ScalarQuantizer.thresholds q))%nat ->
     nth i (ScalarQuantizer.levels q) 0 < nth i (ScalarQuantizer.thresholds q) 0 /\
     nth i (ScalarQuantizer.thresholds q) 0 < nth (S i) (ScalarQuantizer.levels q) 0).
Proof.
  unfold ScalarQuantizer.levels, ScalarQuantizer.thresholds,
    ScalarQuantizer.num_levels.
  intros (ls & ts & H). apply ScalarQuantizer_init_Return in H.
  destruct H as [Hv ->]. simpl.
  pose proof (valid_lengths _ _ Hv) as Hlen.
  split; [reflexivity|]. split; [lia|]. split; [assumption|].
  split; [eapply valid_levels_increasing, Hv|].
  split; [eapply valid_thresholds_increasing, Hv|].
  intros i Hi. split.
  - destruct (valid_level_between ls ts i Hv ltac:(lia)) as [_ Hhi].
    apply Hhi. lia.
  - destruct (valid_level_between ls ts (S i) Hv ltac:(lia)) as [Hlo _].
    apply Hlo. lia.
Qed.

Lemma constructed_invariants_witness :
  (1 <= ScalarQuantizer.num_levels docstring_quantizer)%Z.
Proof.
  assert (Hc : constructed docstring_quantizer)
    by (exists [-1; 0; 1], [-(1#2); 8#10]; reflexivity).
  exact (proj1 (proj2 (constructed_invariants docstring_quantizer Hc))).
Defined.

(** ** The outcomes of the constructor of [UniformQuantizer] *)

Lemma derive_recognised (L : Z) (p : Q) (ty : string) :
  recognised ty -> L <> 0%Z -> L <> 1%Z ->
  UniformQuantizer.derive L p ty
  = Return (uniform_step ty L p, uniform_levels ty L p).
Proof.
  intros Hty H0 H1.
  assert (Hm : (L / 2 =? 0)%Z = false).
  { apply Z.eqb_neq. Z.div_mod_to_equations. lia. }
  apply Z.eqb_neq in H0.
  unfold UniformQuantizer.derive, uniform_step, uniform_levels, py_div, np_div,
    signed_levels, unsigned_levels.
  destruct Hty as [-> | [-> | ->]]; simpl String.eqb; cbv iota;
    rewrite H0; simpl; rewrite ?H0, ?Hm; reflexivity.
Qed.

Lemma UniformQuantizer_init_unfold (L : Z) (p : Q) (ty : string) :
  recognised ty -> L <> 0%Z -> L <> 1%Z ->
  UniformQuantizer.__init__ L p ty =
  bind (ScalarQuantizer.__init__ (uniform_levels ty L p)
          (derived_thresholds (uniform_step ty L p) (uniform_levels ty L p)))
       (fun super => Return (UniformQuantizer.Build super (uniform_step ty L p) p ty)).
Proof.
  intros Hty H0 H1. unfold UniformQuantizer.__init__.
  rewrite derive_recognised by assumption. reflexivity.
Qed.

Lemma uniform_levels_length (L : Z) (p : Q) (ty : string) :
  recognised ty -> length (uniform_levels ty L p) = Z.to_nat L.
Proof.
  intros Hty. unfold uniform_levels.
  destruct Hty as [-> | [-> | ->]]; simpl String.eqb; cbv iota.
  - apply unsigned_levels_length.
  - unfold signed_levels. rewrite length_map, scale_arange_length.
    f_equal. Z.div_mod_to_equations. lia.
  - unfold signed_levels. rewrite !length_map, scale_arange_length.
    f_equal. Z.div_mod_to_equations. lia.
Qed.




(** X7.  The properties of a constructed [UniformQuantizer] give back the
    arguments of the constructor: [num_levels] and [input_peak] are the
    ones passed, [levels] has [num_levels] elements, and
    [quantization_step] is [input_peak / num_levels] in unsigned mode and
    [2 * input_peak / num_levels] in the two others. *)
Theorem UniformQuantizer_properties (L : Z) (p : Q) (ty : string)
        (u : UniformQuantizer.t) :
  UniformQuantizer.__init__ L p ty = Return u ->
  unum_levels u = L /\
  Z.of_nat (length (ulevels u)) = L /\
  UniformQuantizer.input_peak u = p /\
  UniformQuantizer.quantization_step u = uniform_step ty L p.
Proof.
  intros H. pose proof H as H'.
  apply UniformQuantizer_init_Return in H'.
  destruct H' as (delta & ls & Hd & Hv & ->).
  unfold unum_levels, ScalarQuantizer.num_levels, ulevels,
    UniformQuantizer.input_peak, UniformQuantizer.quantization_step. simpl.
  destruct (derive_mode _ _ _ _ Hd) as [-> | Hs].
  - destruct (unsigned_init L p _ H) as (HL & Hstep & _ & _ & Hls & _).
    unfold ulevels in Hls. simpl in Hls, Hstep.
    rewrite Hls, unsigned_levels_length.
    repeat split; try lia. exact Hstep.
  - destruct (signed_init L p ty _ H Hs) as (HL & _ & Hstep & _ & _ & Hlen & _).
    unfold ulevels in Hlen. simpl in Hlen, Hstep. rewrite Hlen.
    repeat split; try lia. rewrite Hstep. unfold uniform_step.
    destruct Hs as [-> | ->]; reflexivity.
Qed.

Lemma UniformQuantizer_properties_witness :
  unum_levels mid_riser8 = 8%Z /\
  Z.of_nat (length (ulevels mid_riser8)) = 8%Z /\
  UniformQuantizer.input_peak mid_riser8 = 1 /\
  UniformQuantizer.quantization_step mid_riser8 = uniform_step "mid-riser" 8 1.
Proof.
  apply (UniformQuantizer_properties 8 1 "mid-riser" mid_riser8).
  reflexivity.
Defined.

(** * Further properties, on floats *)

(** ** The threshold search on floats that are no finite numbers *)

Lemma Flt_infinity (t v : B64.float) :
  Flt t v -> Flt t (S754_infinity false).
Proof.
  intros H. apply flt_place in H. destruct H as (Ht & Hv & H).
  apply flt_place. repeat split; [assumption|].
  destruct v as [sv|sv| |sv mv ev]; try discriminate;
    try destruct sv; cbn [place] in *;
    destruct (place t) as [[a b] c]; unfold before in *; lia.
Qed.

Lemma Fvalid_thresholds_below (ls ts : list B64.float) :
  Fvalid ls ts -> Forall (fun t => exists v, Flt t v) ts.
Proof.
  revert ts. induction ls as [|v ls IH]; intros ts Hv.
  - destruct Hv as [Hlen _]. cbn [length] in Hlen. lia.
  - destruct ts as [|t ts]; [constructor|].
    destruct (Fvalid_cons v t ls ts Hv) as (_ & Hv' & _ & Hls).
    constructor; [|now apply IH].
    destruct ls as [|w ls].
    + destruct Hv' as [Hlen _]. cbn [length] in Hlen. lia.
    + inversion Hls; subst. now exists w.
Qed.

Lemma Fdocstring_quantizer_constructed : Fconstructed Fdocstring_quantizer.
Proof.
  exists [B64.of_int (-1); B64.of_int 0; B64.of_int 1],
         [B64.decimal (-5) 10; B64.decimal 8 10].
  reflexivity.
Qed.

(** X18.  What the threshold search does with an input that is no finite
    number: nan exceeds no threshold, nor does minus infinity, so both go
    to the first level; plus infinity exceeds every threshold and goes to
    the last level. *)
Theorem search_nonfinite_inputs (q : B64.ScalarQuantizer.t) :
  Fconstructed q ->
  let levels := B64.ScalarQuantizer._levels q in
  B64.ScalarQuantizer.__call__ q
    (B64.array1d [S754_nan; S754_infinity true; S754_infinity false])
  = Return (B64.array1d [nth 0 levels S754_nan; nth 0 levels S754_nan;
                         nth (length levels - 1) levels S754_nan]).
Proof.
  intros Hc levels. apply Fconstructed_valid in Hc.
  rewrite Fcall_valid_1d by assumption. do 2 f_equal. cbn [map].
  unfold Flevel_of. fold levels.
  set (ts := B64.ScalarQuantizer._thresholds q) in *.
  assert (E1 : Fcount_exceeded S754_nan ts = 0%nat).
  { apply Fcount_exceeded_none. apply Forall_forall. intros t _ H.
    apply Flt_not_nan in H. destruct H; discriminate. }
  assert (E2 : Fcount_exceeded (S754_infinity true) ts = 0%nat).
  { apply Fcount_exceeded_none. apply Forall_forall. intros t _ H.
    apply flt_place in H. destruct H as (_ & _ & H).
    destruct t as [s|s| |s m e]; try destruct s; cbn [place before] in H; lia. }
  assert (E3 : Fcount_exceeded (S754_infinity false) ts
               = (length levels - 1)%nat).
  { rewrite Fcount_exceeded_all.
    - apply Fvalid_lengths in Hc. fold levels ts in Hc. lia.
    - eapply Forall_impl; [|apply (Fvalid_thresholds_below _ _ Hc)].
      intros t [v Hv]. now apply Flt_infinity with v. }
  now rewrite E1, E2, E3.
Qed.

Lemma search_nonfinite_inputs_witness :
  B64.ScalarQuantizer.__call__ Fdocstring_quantizer
    (B64.array1d [S754_nan; S754_infinity true; S754_infinity false])
  = Return (B64.array1d [B64.of_int (-1); B64.of_int (-1); B64.of_int 1]).
Proof.
  apply (search_nonfinite_inputs Fdocstring_quantizer).
  apply Fdocstring_quantizer_constructed.
Defined.

(** ** The threshold search on 2-d arrays *)

(** X19.  A 2-d array does not go through the threshold search as the
    1-d arrays do.  With one row, the result is the 1-d array of the
    levels of its elements: the shape [(1, n)] becomes [(n,)].  With two
    rows or more, and two thresholds or more, the comparison of the tiled
    input with the thresholds raises [ValueError]. *)
Theorem search_on_2d_arrays (q : B64.ScalarQuantizer.t) :
  Fconstructed q ->
  (forall xs,
     B64.ScalarQuantizer.__call__ q (B64.Build_ndarray [1%nat; length xs] xs)
     = Return (B64.Build_ndarray [length xs] (map (Flevel_of q) xs))) /\
  (forall rows cols d,
     (2 <= rows)%nat ->
     (3 <= length (B64.ScalarQuantizer._levels q))%nat ->
     B64.ScalarQuantizer.__call__ q (B64.Build_ndarray [rows; cols] d)
     = Raise (ValueError "operands could not be broadcast together")).
Proof.
  intros Hc. apply Fconstructed_valid in Hc. split.
  - intros xs.
    change (B64.ScalarQuantizer.__call__ q
              (B64.Build_ndarray [1%nat; length xs] xs))
      with (B64.ScalarQuantizer.__call__ q (B64.array1d xs)).
    rewrite Fcall_valid_1d by assumption.
    unfold B64.array1d. now rewrite length_map.
  - intros rows cols d Hrows Hl. apply Fcall_2d_raises; [assumption|].
    apply Fvalid_lengths in Hc. lia.
Qed.

Lemma search_on_2d_arrays_witness :
  B64.ScalarQuantizer.__call__ Fdocstring_quantizer
    (B64.Build_ndarray [2; 3]%nat
       [B64.of_int 0; B64.of_int 1; B64.of_int 2;
        B64.of_int 3; B64.of_int 4; B64.of_int 5])
  = Raise (ValueError "operands could not be broadcast together").
Proof.
  apply (proj2 (search_on_2d_arrays Fdocstring_quantizer
                  Fdocstring_quantizer_constructed)).
  - apply Nat.le_refl.
  - apply Nat.le_refl.
Defined.

(** ** Nan among the levels or thresholds *)

Lemma Forall2_Feq_numbers (a b : list B64.float) :
  Forall2 Feq a b -> Forall number b.
Proof.
  induction 1 as [|x y a b Hxy _ IH]; constructor; auto.
  apply (Feq_not_nan x y Hxy).
Qed.

(** X20.  The constructor of [ScalarQuantizer] accepts no nan: a nan is
    not equal to itself, so [np.array_equal] fails on any interleaved
    sequence that holds one, and the constructor raises the [ValueError]
    of the invalid values. *)
Theorem ScalarQuantizer_init_rejects_nan (levels thresholds : list B64.float) :
  Z.of_nat (length thresholds) = (Z.of_nat (length levels) - 1)%Z ->
  In S754_nan levels \/ In S754_nan thresholds ->
  B64.ScalarQuantizer.__init__ levels thresholds = Raise values_error.
Proof.
  intros Hlen Hnan. unfold B64.ScalarQuantizer.__init__.
  apply Z.eqb_eq in Hlen. rewrite Hlen. cbn [negb].
  destruct (B64.np_array_equal _ _) eqn:E; [exfalso|reflexivity].
  apply Fnp_array_equal_Forall2, Forall2_Feq_numbers in E.
  rewrite Forall_forall in E.
  apply Z.eqb_eq in Hlen.
  specialize (E S754_nan (Finterleave_In levels thresholds S754_nan Hlen Hnan)).
  discriminate.
Qed.

Lemma ScalarQuantizer_init_rejects_nan_witness :
  B64.ScalarQuantizer.__init__
    [B64.of_int (-1); S754_nan; B64.of_int 1]
    [B64.decimal (-5) 10; B64.decimal 8 10] = Raise values_error.
Proof.
  apply ScalarQuantizer_init_rejects_nan.
  - reflexivity.
  - left. right. left. reflexivity.
Defined.

(** ** The threshold search is monotone on all floats *)

Lemma Fvalid_levels_increasing (ls ts : list B64.float) :
  Fvalid ls ts -> Fincreasing ls.
Proof.
  revert ts. induction ls as [|v ls IH]; intros ts Hv; [constructor|].
  destruct ts as [|t ts].
  - destruct Hv as [Hlen _]. cbn [length] in Hlen.
    destruct ls; cbn [length] in Hlen; [|lia]. repeat constructor.
  - destruct (Fvalid_cons v t ls ts Hv) as (Hvt & Hv' & _ & Hls).
    constructor; [now apply IH with ts|].
    eapply Forall_impl; [|exact Hls].
    intros z Hz. now apply Flt_trans with t.
Qed.

Lemma Fincreasing_nth_lt (l : list B64.float) (i j : nat) :
  Fincreasing l -> (i < j < length l)%nat ->
  Flt (nth i l S754_nan) (nth j l S754_nan).
Proof.
  intros Hs. revert i j. induction Hs as [|x l Hs IH Hall]; intros i j Hij.
  - simpl in Hij. lia.
  - destruct j as [|j]; [lia|]. cbn [length] in Hij. destruct i as [|i].
    + cbn [nth]. rewrite Forall_forall in Hall. apply Hall, nth_In. lia.
    + cbn [nth]. apply IH. lia.
Qed.

Lemma Fcount_exceeded_mono (x1 x2 : B64.float) (ts : list B64.float) :
  Fle x1 x2 -> (Fcount_exceeded x1 ts <= Fcount_exceeded x2 ts)%nat.
Proof.
  intros Hle. induction ts as [|t ts IH]; [apply Nat.le_refl|].
  rewrite !Fcount_exceeded_cons.
  destruct (B64.fgt x1 t) eqn:E1; destruct (B64.fgt x2 t) eqn:E2; try lia.
  exfalso. assert (H : Flt t x2).
  { destruct Hle as [H|H].
    - now apply Flt_trans with x1.
    - now apply Flt_Feq_r with x1. }
  unfold Flt, B64.flt in H. unfold B64.fgt in E2. congruence.
Qed.

Lemma Fconstructed_numbers (q : B64.ScalarQuantizer.t) :
  Fconstructed q -> Forall number (B64.ScalarQuantizer._levels q).
Proof.
  intros (ls & ts & H). pose proof H as H'.
  apply FScalarQuantizer_init_Return in H'. destruct H' as [-> [Hlen _]].
  cbn [B64.ScalarQuantizer._levels].
  unfold B64.ScalarQuantizer.__init__ in H.
  destruct (negb _); [discriminate|]. cbv zeta in H.
  destruct (B64.np_array_equal _ _) eqn:E; [|discriminate].
  apply Fnp_array_equal_Forall2, Forall2_Feq_numbers in E.
  rewrite Forall_forall in *. intros z Hz. apply E.
  apply Finterleave_In; auto.
Qed.

(** X21.  The threshold search is monotone on all floats that are not
    nan, the infinities among them: if [x1 <= x2] then the level of [x1]
    is at most that of [x2]. *)
Theorem search_monotone_on_floats (q : B64.ScalarQuantizer.t)
        (x1 x2 : B64.float) :
  Fconstructed q -> Fle x1 x2 ->
  exists y1 y2,
    B64.ScalarQuantizer.__call__ q (B64.array1d [x1; x2])
      = Return (B64.array1d [y1; y2]) /\
    Fle y1 y2.
Proof.
  intros Hc Hle. pose proof (Fconstructed_numbers q Hc) as Hn.
  apply Fconstructed_valid in Hc.
  exists (Flevel_of q x1), (Flevel_of q x2).
  split; [now apply Fcall_valid_1d|].
  pose proof (Fcount_exceeded_mono x1 x2 (B64.ScalarQuantizer._thresholds q) Hle)
    as Hm.
  pose proof (Flevel_of_index q x2 Hc) as Hi.
  unfold Flevel_of.
  destruct (Nat.eq_dec (Fcount_exceeded x1 (B64.ScalarQuantizer._thresholds q))
                       (Fcount_exceeded x2 (B64.ScalarQuantizer._thresholds q)))
    as [E|E].
  - right. rewrite E. apply Feq_refl.
    rewrite Forall_forall in Hn. apply Hn, nth_In, Hi.
  - left. apply Fincreasing_nth_lt.
    + eapply Fvalid_levels_increasing, Hc.
    + lia.
Qed.

Lemma search_monotone_on_floats_witness :
  exists y1 y2,
    B64.ScalarQuantizer.__call__ Fdocstring_quantizer
      (B64.array1d [B64.decimal 3 10; S754_infinity false])
      = Return (B64.array1d [y1; y2]) /\
    Fle y1 y2.
Proof.
  apply (search_monotone_on_floats Fdocstring_quantizer).
  - apply Fdocstring_quantizer_constructed.
  - left. reflexivity.
Defined.
